(** * Orange Agent: the conversation-state engine

    A shallow embedding of the JavaScript sources of the agent
    (conversation_manager.mjs, event_bus.mjs, tool.mjs, agent.mjs), and the
    properties of its specification stated and settled over it.

    Conventions of the embedding.
    - [crypto.randomUUID()] is a supply of identifiers never handed out
      before: a counter kept next to the store that consumes it.
    - [new Date()] and [Date.now()] only stamp records; the stamps are left
      out of messages and event payloads.
    - [console.error] is logging and is left out.
    - [async]/[await] code is sequential: every promise is awaited where it
      is created, so a call is modelled by its completed effect, and a
      rejected promise by a [throw] at the [await].
    - The LLM service and the event listeners are code the agent does not
      own. They live in a world of any type: a call on them takes the world,
      gives one back, and returns or throws. Tools are asked for their name,
      for validation and for their confirmation policy; these answers depend
      on the input only, and may be a [throw] too.
    - A thrown value is an [Error]; the embedding keeps its [message].
    - An event listener does not call back into the agent that emits.
    - [processConversation] calls itself through the functions it
      dispatches to, without bound; the embedding bounds the depth of these
      calls by a fuel, and a run that needs more ends in [OutOfFuel]. *)

From stdpp Require Import base option strings gmap list.

Open Scope string_scope.
Open Scope list_scope.

(** ** Values shared by the modules *)

Abbreviation UUID := nat (only parsing).

(** The JSON text of a tool's parameters; the agent never looks inside. *)
Abbreviation Input := string (only parsing).

(** [MessageType] of conversation_manager.mjs. *)
Inductive MessageType :=
| SYSTEM | USER | ASSISTANT | TOOL_REQUEST | TOOL_RESULT | INFO.

#[global] Instance MessageType_eq_dec : EqDecision MessageType.
Proof. solve_decision. Defined.

(** [NextAction] of conversation_manager.mjs. *)
Inductive NextAction :=
| SEND_USER_INPUT_TO_LLM
| WAIT_FOR_LOCAL_USER_INPUT
| EXECUTE_LOCAL_TOOL
| SEND_TOOL_RESULT_TO_LLM.

#[global] Instance NextAction_eq_dec : EqDecision NextAction.
Proof. solve_decision. Defined.

(** [BedrockType] of conversation_manager.mjs. *)
Inductive BedrockType := BEDROCK_ASSISTANT | BEDROCK_USER | BEDROCK_SYSTEM.

(** The object [{toolUseId, name, input}]: a tool call of a model response,
    and the [toolUse] block stored in a tool-request message. *)
Record ToolUse := mkToolUse {
  tu_toolUseId : string;
  tu_name : string;
  tu_input : Input
}.

#[global] Instance ToolUse_eq_dec : EqDecision ToolUse.
Proof. solve_decision. Defined.

(** What is handed to [addToolResultMessage] as [content]: a string, or an
    object of which the agent reads the [error] field only. *)
Inductive ToolContent :=
| ContentString (s : string)
| ContentObject (error : option string) (fields : string).

#[global] Instance ToolContent_eq_dec : EqDecision ToolContent.
Proof. solve_decision. Defined.

(** The [json] member of a tool result:
    [typeof content === 'string' ? { result: content } : content]. *)
Inductive Json :=
| JsonResult (result : string)
| JsonObject (error : option string) (fields : string).

#[global] Instance Json_eq_dec : EqDecision Json.
Proof. solve_decision. Defined.

Inductive Status := StatusError | StatusSuccess.

#[global] Instance Status_eq_dec : EqDecision Status.
Proof. solve_decision. Defined.

(** The [toolResult] block of a tool-result message. *)
Record ToolResult := mkToolResult {
  tr_toolUseId : string;
  tr_json : Json;
  tr_status : Status
}.

#[global] Instance ToolResult_eq_dec : EqDecision ToolResult.
Proof. solve_decision. Defined.

(** JavaScript truthiness of a value that is a string or [undefined]. *)
Definition truthy (v : option string) : bool :=
  match v with
  | Some s => negb (String.eqb s "")
  | None => false
  end.

(** ** Messages

    Every message object is built by one of the [add...Message] methods; the
    [type] member is the tag of the union and [bedrockType] is fixed by it. *)
Inductive Message :=
| SystemMessage (id : UUID) (content : string)
| UserMessage (id : UUID) (content : string)
| AssistantMessage (id : UUID) (content : string)
| ToolRequestMessage (id : UUID) (content : ToolUse)
    (toolName : string) (toolUseId : string)
| ToolResultMessage (id : UUID) (toolUseId : string) (content : ToolResult)
    (error : option string)
| InfoMessage (id : UUID) (content : string) (input : string).

#[global] Instance Message_eq_dec : EqDecision Message.
Proof. solve_decision. Defined.

Definition msg_id (m : Message) : UUID :=
  match m with
  | SystemMessage id _ | UserMessage id _ | AssistantMessage id _
  | ToolRequestMessage id _ _ _ | ToolResultMessage id _ _ _
  | InfoMessage id _ _ => id
  end.

Definition msg_type (m : Message) : MessageType :=
  match m with
  | SystemMessage _ _ => SYSTEM
  | UserMessage _ _ => USER
  | AssistantMessage _ _ => ASSISTANT
  | ToolRequestMessage _ _ _ _ => TOOL_REQUEST
  | ToolResultMessage _ _ _ _ => TOOL_RESULT
  | InfoMessage _ _ _ => INFO
  end.

Definition msg_bedrockType (m : Message) : BedrockType :=
  match m with
  | SystemMessage _ _ => BEDROCK_SYSTEM
  | UserMessage _ _ => BEDROCK_USER
  | AssistantMessage _ _ => BEDROCK_ASSISTANT
  | ToolRequestMessage _ _ _ _ => BEDROCK_ASSISTANT
  | ToolResultMessage _ _ _ _ => BEDROCK_USER
  | InfoMessage _ _ _ => BEDROCK_USER
  end.

(** [message.toolUseId]: [undefined] on the kinds that have no such member. *)
Definition msg_toolUseId (m : Message) : option string :=
  match m with
  | ToolRequestMessage _ _ _ toolUseId => Some toolUseId
  | ToolResultMessage _ toolUseId _ _ => Some toolUseId
  | _ => None
  end.

(** [message.toolName]. *)
Definition msg_toolName (m : Message) : option string :=
  match m with
  | ToolRequestMessage _ _ toolName _ => Some toolName
  | _ => None
  end.

(** [message.content] of the three textual kinds, as [run] reads it. *)
Definition msg_text (m : Message) : string :=
  match m with
  | SystemMessage _ c | UserMessage _ c | AssistantMessage _ c
  | InfoMessage _ c _ => c
  | _ => ""
  end.

(** ** ConversationManager (conversation_manager.mjs) *)
Module ConversationManager.

(** [this.messages] is the [Map] from id to message, [this.messageOrder] the
    array of ids; [uuidSupply] is the state of [randomUUID]. *)
Record t := mk {
  messages : gmap UUID Message;
  messageOrder : list UUID;
  uuidSupply : UUID
}.

Definition constructor (supply : UUID) : t :=
  {| messages := ∅; messageOrder := []; uuidSupply := supply |}.

(** [randomUUID()]: the identifier and the manager with the supply moved on. *)
Definition randomUUID (c : t) : UUID * t :=
  (uuidSupply c,
   {| messages := messages c; messageOrder := messageOrder c;
      uuidSupply := S (uuidSupply c) |}).

Definition addMessage (message : Message) (c : t) : UUID * t :=
  (msg_id message,
   {| messages := <[msg_id message := message]> (messages c);
      messageOrder := messageOrder c ++ [msg_id message];
      uuidSupply := uuidSupply c |}).

Definition addSystemMessage (content : string) (c : t) : UUID * t :=
  let '(id, c) := randomUUID c in
  addMessage (SystemMessage id content) c.

Definition addUserMessage (content : string) (c : t) : UUID * t :=
  let '(id, c) := randomUUID c in
  addMessage (UserMessage id content) c.

Definition addAssistantMessage (content : string) (c : t) : UUID * t :=
  let '(id, c) := randomUUID c in
  addMessage (AssistantMessage id content) c.

Definition addToolRequestMessage (toolName toolUseId : string) (input : Input)
    (c : t) : UUID * t :=
  let '(id, c) := randomUUID c in
  addMessage
    (ToolRequestMessage id
       {| tu_toolUseId := toolUseId; tu_name := toolName; tu_input := input |}
       toolName toolUseId) c.

Definition toolResultOf (toolUseId : string) (content : ToolContent)
    (error : option string) : ToolResult :=
  {| tr_toolUseId := toolUseId;
     tr_json := match content with
                | ContentString s => JsonResult s
                | ContentObject e fields => JsonObject e fields
                end;
     tr_status := if truthy error then StatusError else StatusSuccess |}.

Definition addToolResultMessage (toolUseId : string) (content : ToolContent)
    (error : option string) (c : t) : UUID * t :=
  let '(id, c) := randomUUID c in
  addMessage
    (ToolResultMessage id toolUseId (toolResultOf toolUseId content error)
       error) c.

Definition addInfoMessage (content : string) (c : t) : UUID * t :=
  let '(id, c) := randomUUID c in
  addMessage (InfoMessage id content content) c.

(** [this.messageOrder.map(id => this.messages.get(id))]. Every id of
    [messageOrder] is a key of [messages] in a well-formed store ([wf] below,
    lemma [CMFacts.getAllMessages_length]), so no entry is [undefined] and
    [omap] drops nothing. *)
Definition getAllMessages (c : t) : list Message :=
  omap (λ id, messages c !! id) (messageOrder c).

Definition getMessage (id : UUID) (c : t) : option Message :=
  messages c !! id.

Definition getMessagesByType (type : MessageType) (c : t) : list Message :=
  List.filter (λ message, bool_decide (msg_type message = type))
    (getAllMessages c).

(** [arr.length > 0 ? arr[arr.length - 1] : undefined]. *)
Definition getLastUserMessage (c : t) : option Message :=
  last (getMessagesByType USER c).

Definition getLastMessage (c : t) : option Message :=
  match last (messageOrder c) with
  | None => None
  | Some lastId => messages c !! lastId
  end.

Definition clear (c : t) : t :=
  {| messages := ∅; messageOrder := []; uuidSupply := uuidSupply c |}.

Definition getNextActionForType (type : MessageType) : NextAction :=
  match type with
  | USER => SEND_USER_INPUT_TO_LLM
  | ASSISTANT => WAIT_FOR_LOCAL_USER_INPUT
  | TOOL_REQUEST => EXECUTE_LOCAL_TOOL
  | TOOL_RESULT => SEND_TOOL_RESULT_TO_LLM
  | _ => WAIT_FOR_LOCAL_USER_INPUT
  end.

(** The loop [for (let i = n - 1; i >= 0; i--)] of the [INFO] case: the first
    message that is not [INFO], going down from index [n - 1], decides. The
    loop starts below [messages.length], so [messages[i]] is never
    [undefined]. *)
Fixpoint previousNonInfo (messages : list Message) (n : nat) : NextAction :=
  match n with
  | 0 => WAIT_FOR_LOCAL_USER_INPUT
  | S i =>
      match messages !! i with
      | Some tempMessage =>
          if bool_decide (msg_type tempMessage ≠ INFO)
          then getNextActionForType (msg_type tempMessage)
          else previousNonInfo messages i
      | None => WAIT_FOR_LOCAL_USER_INPUT
      end
  end.

(** [getNextAction]. The six kinds are all the [type]s there are, so the
    [default] of the [switch] has no case here. *)
Definition getNextAction (c : t) : NextAction :=
  match getLastMessage c with
  | None => WAIT_FOR_LOCAL_USER_INPUT
  | Some lastMessage =>
      match msg_type lastMessage with
      | USER => SEND_USER_INPUT_TO_LLM
      | ASSISTANT => WAIT_FOR_LOCAL_USER_INPUT
      | TOOL_REQUEST => EXECUTE_LOCAL_TOOL
      | TOOL_RESULT => SEND_TOOL_RESULT_TO_LLM
      | SYSTEM => WAIT_FOR_LOCAL_USER_INPUT
      | INFO =>
          let messages := getAllMessages c in
          (* i starts at messages.length - 2 *)
          previousNonInfo messages (length messages - 1)
      end
  end.

(** The store is well formed when every id of [messageOrder] was drawn from
    the supply and is a key of [messages]. *)
Definition wf (c : t) : Prop :=
  Forall (λ id, id < uuidSupply c ∧ is_Some (messages c !! id))
    (messageOrder c).

#[global] Instance wf_dec c : Decision (wf c).
Proof. unfold wf. apply _. Defined.

(** A method that keeps the store well formed and only adds to the log. *)
Definition appends {A} (f : t → A * t) : Prop :=
  ∀ c, wf c →
    wf (f c).2 ∧ getAllMessages c `prefix_of` getAllMessages (f c).2.

End ConversationManager.

Module CM := ConversationManager.

(** ** Outcomes of calls into code the agent does not own *)

(** A call on a collaborator (the LLM service, a tool, an event handler)
    returns a value or throws. *)
Inductive Outcome (A : Type) :=
| Ok (a : A)
| Throw (message : string).

Arguments Ok {A} a.
Arguments Throw {A} message.

(** ** EventBus (event_bus.mjs) *)
Module EventBus.
Section Bus.
Context {World Data Value : Type}.

(** A listener runs in the caller's world: it may change it, and it returns
    a value or throws. *)
Definition Callback : Type := Data → World → Outcome Value * World.

(** [this.listeners]: the [Map] from event name to the array of callbacks. *)
Record t := mk { listeners : gmap string (list Callback) }.

Definition constructor : t := {| listeners := ∅ |}.

(** [on]: create the array when the name is new, then push. (The returned
    unsubscribe closure compares callbacks by identity and is not modelled.) *)
Definition on (eventName : string) (callback : Callback) (bus : t) : t :=
  let eventListeners := default [] (listeners bus !! eventName) in
  {| listeners :=
       <[eventName := eventListeners ++ [callback]]> (listeners bus) |}.

(** [eventListeners.map(callback => callback(data))]: callbacks are called
    from the first to the last; a callback that throws ends the [map]. *)
Fixpoint mapCallbacks (eventListeners : list Callback) (data : Data)
    (w : World) : Outcome (list Value) * World :=
  match eventListeners with
  | [] => (Ok [], w)
  | callback :: rest =>
      match callback data w with
      | (Ok v, w1) =>
          match mapCallbacks rest data w1 with
          | (Ok vs, w2) => (Ok (v :: vs), w2)
          | (Throw e, w2) => (Throw e, w2)
          end
      | (Throw e, w1) => (Throw e, w1)
      end
  end.

Definition emit (eventName : string) (data : Data) (bus : t) (w : World)
    : Outcome (list Value) * World :=
  match listeners bus !! eventName with
  | None => (Ok [], w)
  | Some [] => (Ok [], w)
  | Some eventListeners => mapCallbacks eventListeners data w
  end.

(** [emitAsync]: [emit], then wait for the promises among the results. *)
Definition emitAsync (eventName : string) (data : Data) (bus : t) (w : World)
    : Outcome unit * World :=
  match emit eventName data bus w with
  | (Ok _, w1) => (Ok (), w1)
  | (Throw e, w1) => (Throw e, w1)
  end.

Definition clearListeners (eventName : string) (bus : t) : t :=
  {| listeners := delete eventName (listeners bus) |}.

Definition clearAllListeners (bus : t) : t := {| listeners := ∅ |}.

(** A callback that never throws. *)
Definition total (callback : Callback) : Prop :=
  ∀ data w, ∃ v w1, callback data w = (Ok v, w1).

(** A bus none of whose listeners throws. *)
Definition quiet (bus : t) : Prop :=
  ∀ eventName cbs, listeners bus !! eventName = Some cbs → Forall total cbs.

End Bus.

Arguments Callback : clear implicits.
Arguments t : clear implicits.

End EventBus.

(** ** Tool (tool.mjs) *)

(** [{ ok: boolean, error?: string }]. *)
Record ValidationResult := mkValidation {
  ok : bool;
  error : option string
}.

(** The methods of a tool the agent calls. Each may throw: the methods of the
    base class do. [execute] is never called by the agent, which hands
    accepted calls to [llm.processToolCalls]. *)
Record Tool := mkTool {
  getName : Outcome string;
  validate : Input → Outcome ValidationResult;
  requiresAcceptance : Input → Outcome bool
}.


(** ** The LLM service *)

(** An element of the array [llm.processToolCalls] resolves to. *)
Record ToolCallResult := mkToolCallResult {
  res_toolUseId : string;
  res_content : ToolContent
}.

#[global] Instance ToolCallResult_eq_dec : EqDecision ToolCallResult.
Proof. solve_decision. Defined.

(** [content.error]. *)
Definition content_error (content : ToolContent) : option string :=
  match content with
  | ContentString _ => None
  | ContentObject e _ => e
  end.

(** What [llm.invokeModel] resolves to: [type === 'ASSISTANT_TOOL_REQUEST']
    with [toolCalls] (possibly missing), or anything else with [content]. *)
Inductive Response :=
| AssistantToolRequest (toolCalls : option (list ToolUse))
| AssistantContent (content : string).

Record LLM (World : Type) := mkLLM {
  invokeModel : list Message → World → Outcome Response * World;
  processToolCalls :
    list ToolUse → World → Outcome (list ToolCallResult) * World
}.

Arguments invokeModel {World} _ _ _.
Arguments processToolCalls {World} _ _ _.

(** ** Events the agent emits *)

Inductive EventData :=
| UserSent (content : string)
| AssistantReceive (content : string)
| ToolConfirmation (toolUseId toolName : string) (input : Input)
    (dangerous : bool)
| ToolStart (toolUseId toolName : string) (input : Input)
| ToolEnd (toolUseId toolName : string) (result : list ToolCallResult)
    (duration : nat)
| LLMError (error : string)
| ToolError (toolUseId : string) (toolName : option string)
    (error : option string).

#[global] Instance EventData_eq_dec : EqDecision EventData.
Proof. solve_decision. Defined.

(** What an event handler returns; the agent drops it. *)
Abbreviation HandlerValue := string (only parsing).

(** A call the agent made on a collaborator or on its bus. The agent keeps
    no such record: [trace] below is instrumentation, read by no agent code. *)
Inductive Effect :=
| InvokeModel (messages : list Message)
| ProcessToolCalls (toolCalls : list ToolUse)
| Emit (eventName : string) (data : EventData).

#[global] Instance Effect_eq_dec : EqDecision Effect.
Proof. solve_decision. Defined.

(** ** The agent (agent.mjs) *)

(** The argument of [createAgent]. Optional members are [None] when the
    caller leaves them out. *)
Record Config (World : Type) := mkConfig {
  cfg_system : string;
  cfg_messages : option (list string);
  cfg_llm : LLM World;
  cfg_tools : option (list Tool);
  cfg_acceptAll : option bool
}.

Arguments cfg_system {World} _.
Arguments cfg_messages {World} _.
Arguments cfg_llm {World} _.
Arguments cfg_tools {World} _.
Arguments cfg_acceptAll {World} _.

Module Agent.
Section Closure.
Context {World : Type}.
Variable config : Config World.

(** The private variables of the closure. *)
Definition system : string := cfg_system config.
Definition initialMessages : list string := default [] (cfg_messages config).
Definition llm : LLM World := cfg_llm config.
Definition tools : list Tool := default [] (cfg_tools config).
Definition acceptAll : bool := default false (cfg_acceptAll config).

(** What the closure owns and what it can reach: its conversation, its bus,
    the world its collaborators live in, and the instrumentation. *)
Record State := mkState {
  conversation : CM.t;
  eventBus : EventBus.t World EventData HandlerValue;
  world : World;
  trace : list Effect
}.

Definition set_conversation (c : CM.t) (s : State) : State :=
  {| conversation := c; eventBus := eventBus s; world := world s;
     trace := trace s |}.

Definition set_eventBus (b : EventBus.t World EventData HandlerValue)
    (s : State) : State :=
  {| conversation := conversation s; eventBus := b; world := world s;
     trace := trace s |}.

Definition set_world (w : World) (s : State) : State :=
  {| conversation := conversation s; eventBus := eventBus s; world := w;
     trace := trace s |}.

Definition record (e : Effect) (s : State) : State :=
  {| conversation := conversation s; eventBus := eventBus s;
     world := world s; trace := trace s ++ [e] |}.

(** A run of agent code from a state: it returns, it throws, or the fuel
    that bounds the depth of [processConversation] is used up. Mutations done
    before a [throw] stay done, so [Threw] carries the state too. *)
Inductive Result (A : Type) :=
| Returned (a : A) (s : State)
| Threw (e : string) (s : State)
| OutOfFuel.

Arguments Returned {A} a s.
Arguments Threw {A} e s.
Arguments OutOfFuel {A}.

Definition M (A : Type) : Type := State → Result A.

Definition ret {A} (a : A) : M A := λ s, Returned a s.

Definition bind {A B} (m : M A) (f : A → M B) : M B := λ s,
  match m s with
  | Returned a s1 => f a s1
  | Threw e s1 => Threw e s1
  | OutOfFuel => OutOfFuel
  end.

#[local] Notation "x ← y ; z" := (bind y (λ x, z))
  (at level 20, y at level 100, z at level 200, only parsing).
#[local] Notation "x ;; z" := (bind x (λ _, z))
  (at level 100, z at level 200, only parsing, right associativity).

(** [try { body } catch (error) { handler(error.message) }]. *)
Definition tryCatch {A} (body : M A) (handler : string → M A) : M A := λ s,
  match body s with
  | Threw e s1 => handler e s1
  | r => r
  end.

(** A method of [conversation] that mutates it. *)
Definition onConversation {A} (f : CM.t → A * CM.t) : M A := λ s,
  let '(a, c) := f (conversation s) in Returned a (set_conversation c s).

(** A method of [conversation] that only reads. *)
Definition ofConversation {A} (f : CM.t → A) : M A := λ s,
  Returned (f (conversation s)) s.

(** A call on a collaborator that lives in the world. *)
Definition call {A} (e : Effect) (f : World → Outcome A * World) : M A :=
  λ s,
  match f (world s) with
  | (Ok a, w) => Returned a (set_world w (record e s))
  | (Throw msg, w) => Threw msg (set_world w (record e s))
  end.

(** A call on a method of a tool. *)
Definition ofTool {A} (o : Outcome A) : M A := λ s,
  match o with
  | Ok a => Returned a s
  | Throw msg => Threw msg s
  end.

(** [eventBus.emit(eventName, data)]. *)
Definition emit (eventName : string) (data : EventData)
    : M (list HandlerValue) := λ s,
  call (Emit eventName data) (EventBus.emit eventName data (eventBus s)) s.

(** [initialize()]: the system message, then one user message for each
    initial message. *)
Definition initialize (c : CM.t) : CM.t :=
  foldl (λ c message, (CM.addUserMessage message c).2)
    (CM.addSystemMessage system c).2 initialMessages.

(** [tools.find(x => x.getName() === name)]. *)
Fixpoint find_tool (l : list Tool) (name : string) : Outcome (option Tool) :=
  match l with
  | [] => Ok None
  | x :: rest =>
      match getName x with
      | Ok n => if String.eqb n name then Ok (Some x) else find_tool rest name
      | Throw msg => Throw msg
      end
  end.

Definition emitToolError (toolUseId : string) (name : option string)
    (error : option string) : M unit :=
  emit "error" (ToolError toolUseId name error);; ret ().

Definition needsConfirmation (toolCall : ToolUse) (tool : Tool) : M bool :=
  b ← (if String.eqb (tu_name toolCall) "execute_bash"
       then ofTool (requiresAcceptance tool (tu_input toolCall))
       else ret false);
  if b then ret true
  else if String.eqb (tu_name toolCall) "fs_write" then ret true
  else ret false.

Definition requestConfirmation (toolCall : ToolUse) : M unit :=
  emit "toolConfirmation"
    (ToolConfirmation (tu_toolUseId toolCall) (tu_name toolCall)
       (tu_input toolCall) true);;
  ret ().

(** [for (const res of result) conversation.addToolResultMessage(...)]. *)
Fixpoint addToolResults (result : list ToolCallResult) : M unit :=
  match result with
  | [] => ret ()
  | res :: rest =>
      let content := res_content res in
      onConversation
        (CM.addToolResultMessage (res_toolUseId res) (res_content res)
           (content_error content));;
      addToolResults rest
  end.

(** [executeValidatedTool], with [processConversation] for the calls it
    makes on [processConversation()]. [find] with this predicate yields a
    tool-request message or nothing. *)
Definition executeValidatedTool (processConversation : M unit)
    (toolUseId : string) : M unit :=
  messages ← ofConversation CM.getAllMessages;
  match
    List.find
      (λ msg, bool_decide (msg_type msg = TOOL_REQUEST)
              && bool_decide (msg_toolUseId msg = Some toolUseId)) messages
  with
  | Some (ToolRequestMessage _ toolUse toolName requestId) =>
      emit "toolStart" (ToolStart requestId toolName (tu_input toolUse));;
      tryCatch
        (result ← call (ProcessToolCalls [toolUse])
                    (processToolCalls llm [toolUse]);
         emit "toolEnd" (ToolEnd requestId toolName result 0);;
         addToolResults result;;
         processConversation)
        (λ message,
           (* [toolRequest.name] is undefined on a message *)
           emitToolError requestId None (Some message);;
           onConversation
             (CM.addToolResultMessage requestId
                (ContentObject (Some message) "") (Some message));;
           processConversation)
  | _ => ret ()
  end.

(** [executeNextTool]: the first tool request without a tool result. *)
Definition executeNextTool (processConversation : M unit) : M unit :=
  messages ← ofConversation CM.getAllMessages;
  match
    List.find
      (λ msg, bool_decide (msg_type msg = TOOL_REQUEST)
              && negb (existsb
                         (λ m, bool_decide (msg_type m = TOOL_RESULT)
                               && bool_decide
                                    (msg_toolUseId m = msg_toolUseId msg))
                         messages)) messages
  with
  | Some toolRequest =>
      match msg_toolUseId toolRequest with
      | Some toolUseId => executeValidatedTool processConversation toolUseId
      | None => ret ()
      end
  | None => ret ()
  end.

(** [validateAndProcessTools]: the [for ... of] loop over the tool calls;
    [continue] goes on with the rest, [return] drops it. *)
Fixpoint validateAndProcessTools (processConversation : M unit)
    (toolCalls : list ToolUse) : M unit :=
  match toolCalls with
  | [] => ret ()
  | toolCall :: rest =>
      tool ← ofTool (find_tool tools (tu_name toolCall));
      match tool with
      | None => validateAndProcessTools processConversation rest
      | Some tool =>
          onConversation
            (CM.addToolRequestMessage (tu_name toolCall)
               (tu_toolUseId toolCall) (tu_input toolCall));;
          v ← ofTool (validate tool (tu_input toolCall));
          if negb (ok v) then
            v2 ← ofTool (validate tool (tu_input toolCall));
            let error := error v2 in
            emitToolError (tu_toolUseId toolCall) (Some (tu_name toolCall))
              error;;
            onConversation
              (CM.addToolResultMessage (tu_toolUseId toolCall)
                 (ContentObject error "") error);;
            ret ()
          else
            gate ← (if negb acceptAll then needsConfirmation toolCall tool
                    else ret false);
            if gate then requestConfirmation toolCall
            else
              executeValidatedTool processConversation
                (tu_toolUseId toolCall);;
              validateAndProcessTools processConversation rest
      end
  end.

(** [sendToLLM]. *)
Definition sendToLLM (processConversation : M unit) : M unit :=
  tryCatch
    (messages ← ofConversation CM.getAllMessages;
     response ← call (InvokeModel messages) (invokeModel llm messages);
     match response with
     | AssistantToolRequest toolCalls =>
         validateAndProcessTools processConversation (default [] toolCalls)
     | AssistantContent content =>
         onConversation (CM.addAssistantMessage content);;
         emit "assistantReceive" (AssistantReceive content);;
         ret ()
     end;;
     processConversation)
    (λ error, emit "error" (LLMError error);; ret ()).

(** One unfolding of [processConversation]; [self] stands for the calls the
    functions it reaches make on [processConversation()]. *)
Definition processConversationStep (self : M unit) : M unit :=
  nextAction ← ofConversation CM.getNextAction;
  match nextAction with
  | SEND_USER_INPUT_TO_LLM | SEND_TOOL_RESULT_TO_LLM => sendToLLM self
  | EXECUTE_LOCAL_TOOL => executeNextTool self
  | WAIT_FOR_LOCAL_USER_INPUT => ret ()
  end.

(** [processConversation], unfolded at most [fuel] deep. *)
Fixpoint processConversation (fuel : nat) : M unit :=
  match fuel with
  | 0 => λ _, OutOfFuel
  | S fuel => processConversationStep (processConversation fuel)
  end.

(** [createAgent(config)]: the state after [initialize()]. The call of
    [llm.registerTools(tools)] configures the collaborator and is left out. *)
Definition createAgent (supply : UUID) (w : World) : State :=
  {| conversation := initialize (CM.constructor supply);
     eventBus := EventBus.constructor;
     world := w;
     trace := [] |}.

(** The members of [handlers] that [agent.on] looks at, each with the event
    it is registered under, in the order of the [if]s. *)
Definition handlerEvents : list (string * string) :=
  [ ("start", "start"); ("toolStart", "toolStart");
    ("toolConfirmation", "toolConfirmation"); ("toolEnd", "toolEnd");
    ("userSent", "userSent"); ("assistantReceive", "assistantReceive");
    ("error", "error");
    ("fileNewContent", "file:newContentSuggestion");
    ("fileUpdateContent", "file:updateContentSuggestion");
    ("tokenUsage", "llm:tokenUsage");
    ("systemClosed", "system:closed") ].

(** [agent.on(handlers)]. *)
Definition on
    (handlers : gmap string (EventBus.Callback World EventData HandlerValue))
    : M unit := λ s,
  Returned ()
    (set_eventBus
       (foldl
          (λ bus '(member, eventName),
             match handlers !! member with
             | Some handler => EventBus.on eventName handler bus
             | None => bus
             end)
          (eventBus s) handlerEvents) s).


(** [agent.run(input)]. *)
Definition run (fuel : nat) (input : string) : M string :=
  onConversation (CM.addUserMessage input);;
  emit "userSent" (UserSent input);;
  processConversation fuel;;
  assistantMessages ← ofConversation (CM.getMessagesByType ASSISTANT);
  ret (match last assistantMessages with
        | Some m => msg_text m
        | None => ""
        end).

(** [agent.handleToolConfirmation(toolUseId, confirmed)]. *)
Definition handleToolConfirmation (fuel : nat) (toolUseId : string)
    (confirmed : bool) : M unit :=
  if confirmed then
    executeValidatedTool (processConversation fuel) toolUseId
  else
    onConversation
      (CM.addToolResultMessage toolUseId
         (ContentObject (Some "Tool use was cancelled by the user.") "")
         (Some "Tool use was cancelled by the user."));;
    onConversation
      (CM.addUserMessage
         "No, do not execute this tool. Lets do something else.");;
    processConversation fuel.

(** [agent.messages]. *)
Definition messages : M (list Message) := ofConversation CM.getAllMessages.

(** [agent.shutdown()]. *)
Definition shutdown : M unit := λ s,
  Returned () (set_eventBus (EventBus.clearAllListeners (eventBus s)) s).

End Closure.

Arguments Returned {World A} a s.
Arguments Threw {World A} e s.
Arguments OutOfFuel {World A}.
Arguments mkState {World} _ _ _ _.
Arguments conversation {World} _.
Arguments eventBus {World} _.
Arguments world {World} _.
Arguments trace {World} _.

(** The log of a state, as [agent.messages] shows it. *)
Definition log {World} (s : State (World:=World)) : list Message :=
  CM.getAllMessages (conversation s).

(** The state a run of agent code ends in, when it ends. *)
Definition final {World A} (r : Result (World:=World) A) : option State :=
  match r with
  | Returned _ s | Threw _ s => Some s
  | OutOfFuel => None
  end.

(** [obeys mayThrow m]: started with a bus none of whose listeners throws,
    [m] leaves the bus as it is, and throws only when [mayThrow] allows. *)
Definition obeys {World A} (mayThrow : bool) (m : M (World:=World) A)
    : Prop :=
  ∀ s, EventBus.quiet (eventBus s) →
    match m s with
    | Returned _ s1 => eventBus s1 = eventBus s
    | Threw _ s1 => mayThrow = true ∧ eventBus s1 = eventBus s
    | OutOfFuel => True
    end.

(** [grows m]: [m] only adds to the record of calls, and from a well-formed
    store it only adds to the log and leaves the store well formed. *)
Definition grows {World A} (m : M (World:=World) A) : Prop :=
  ∀ s s1, final (m s) = Some s1 →
    trace s `prefix_of` trace s1
    ∧ (CM.wf (conversation s) →
       CM.wf (conversation s1) ∧ log s `prefix_of` log s1).

(** [m1] agrees with [m2] wherever [m1] does not run out of fuel. *)
Definition below {World A} (m1 m2 : M (World:=World) A) : Prop :=
  ∀ s, m1 s ≠ OutOfFuel → m2 s = m1 s.

(** The states an agent goes through: the one [createAgent] makes, and the
    ones the calls of its public methods end in. *)
Inductive reachable {World} (config : Config World)
    : State (World:=World) → Prop :=
| reach_create supply w : reachable config (createAgent config supply w)
| reach_on handlers s s1 :
    reachable config s →
    final (on handlers s) = Some s1 →
    reachable config s1
| reach_run fuel input s s1 :
    reachable config s →
    final (run config fuel input s) = Some s1 →
    reachable config s1
| reach_confirmation fuel toolUseId confirmed s s1 :
    reachable config s →
    final (handleToolConfirmation config fuel toolUseId confirmed s)
    = Some s1 →
    reachable config s1.


End Agent.

(** ** The state machine as the specification words it *)
Module Spec.

Inductive Action := AwaitingUser | InvokeModel | RunTool.

(** The table of the specification, on the kind of the most recent message
    that is not [info]; [None] when there is no such message. *)
Definition nextAction (kind : option MessageType) : Action :=
  match kind with
  | None | Some SYSTEM => AwaitingUser
  | Some USER => InvokeModel
  | Some ASSISTANT => AwaitingUser
  | Some TOOL_REQUEST => RunTool
  | Some TOOL_RESULT => InvokeModel
  | Some INFO => AwaitingUser
  end.

(** The kind of the most recent message of the log that is not [info]. *)
Definition lastSubstantive (log : list Message) : option MessageType :=
  msg_type <$>
    last (List.filter (λ m, bool_decide (msg_type m ≠ INFO)) log).

(** How the four actions of the source read in the specification. *)
Definition ofNextAction (a : NextAction) : Action :=
  match a with
  | SEND_USER_INPUT_TO_LLM => InvokeModel
  | SEND_TOOL_RESULT_TO_LLM => InvokeModel
  | EXECUTE_LOCAL_TOOL => RunTool
  | WAIT_FOR_LOCAL_USER_INPUT => AwaitingUser
  end.

(** The pairing of tool results with tool requests: going through the log,
    every [tool-result] names a [toolUseId] that an earlier [tool-request]
    carries and that no earlier [tool-result] carries. *)
Fixpoint paired (requested answered : list string) (log : list Message)
    : bool :=
  match log with
  | [] => true
  | ToolRequestMessage _ _ _ toolUseId :: rest =>
      paired (toolUseId :: requested) answered rest
  | ToolResultMessage _ toolUseId _ _ :: rest =>
      bool_decide (toolUseId ∈ requested)
      && negb (bool_decide (toolUseId ∈ answered))
      && paired requested (toolUseId :: answered) rest
  | _ :: rest => paired requested answered rest
  end.

Definition toolResultsPaired (log : list Message) : bool := paired [] [] log.

End Spec.

(** ** The six methods that add a message, as one call *)
Module Append.

(** Which [add...Message] method is called, and with what. *)
Inductive t :=
| System (content : string)
| User (content : string)
| Assistant (content : string)
| ToolRequest (toolName toolUseId : string) (input : Input)
| ToolResult (toolUseId : string) (content : ToolContent)
    (error : option string)
| Info (content : string).

Definition call (a : t) : CM.t → UUID * CM.t :=
  match a with
  | System content => CM.addSystemMessage content
  | User content => CM.addUserMessage content
  | Assistant content => CM.addAssistantMessage content
  | ToolRequest toolName toolUseId input =>
      CM.addToolRequestMessage toolName toolUseId input
  | ToolResult toolUseId content error =>
      CM.addToolResultMessage toolUseId content error
  | Info content => CM.addInfoMessage content
  end.

(** The object literal of the method, with [id] for [randomUUID()]. *)
Definition message (a : t) (id : UUID) : Message :=
  match a with
  | System content => SystemMessage id content
  | User content => UserMessage id content
  | Assistant content => AssistantMessage id content
  | ToolRequest toolName toolUseId input =>
      ToolRequestMessage id (mkToolUse toolUseId toolName input)
        toolName toolUseId
  | ToolResult toolUseId content error =>
      ToolResultMessage id toolUseId
        (CM.toolResultOf toolUseId content error) error
  | Info content => InfoMessage id content content
  end.

(** The [type] of the message the method adds. *)
Definition type (a : t) : MessageType :=
  match a with
  | System _ => SYSTEM
  | User _ => USER
  | Assistant _ => ASSISTANT
  | ToolRequest _ _ _ => TOOL_REQUEST
  | ToolResult _ _ _ => TOOL_RESULT
  | Info _ => INFO
  end.

(** The index and the order array describe the same messages: the store
    is well formed, no id is twice in [messageOrder], and every entry of
    [messages] sits under the id of its message, which [messageOrder]
    has. *)
Definition indexed (c : CM.t) : Prop :=
  CM.wf c
  ∧ NoDup (CM.messageOrder c)
  ∧ map_Forall (λ id m, msg_id m = id ∧ id ∈ CM.messageOrder c)
      (CM.messages c).

#[global] Instance indexed_dec c : Decision (indexed c).
Proof. unfold indexed. apply _. Defined.

End Append.

(** ** createTool (tool.mjs) *)
Module ToolFactory.

(** The argument of [createTool]. [config_required] is
    [config.parameters?.required], the one member of the schema that
    [createTool] reads; [execute], [description] and the rest of the schema
    are for the LLM service and are left out, as in [Tool]. *)
Record Config := mkConfig {
  config_name : string;
  config_required : option (list string);
  config_validate : option (Input → Outcome ValidationResult);
  config_requiresAcceptance : option (Input → Outcome bool)
}.

Section Params.

(** [params[param] !== undefined], on the JSON text of [params]. *)
Variable defined : Input → string → bool.



End Params.

End ToolFactory.

(** ** What the agent records *)
Module Catalogue.
Section Config.
Context {World : Type}.
Variable config : Config World.

(** The calls the agent makes on its bus and on [llm.processToolCalls], one
    constructor for each place of agent.mjs that makes one; the
    [toolConfirmation] event is behind [!acceptAll]. *)
Inductive t : Effect → Prop :=
| userSent content : t (Emit "userSent" (UserSent content))
| assistantReceive content :
    t (Emit "assistantReceive" (AssistantReceive content))
| toolConfirmation toolUseId toolName input :
    Agent.acceptAll config = false →
    t (Emit "toolConfirmation"
         (ToolConfirmation toolUseId toolName input true))
| toolStart toolUseId toolName input :
    t (Emit "toolStart" (ToolStart toolUseId toolName input))
| toolEnd toolUseId toolName result :
    t (Emit "toolEnd" (ToolEnd toolUseId toolName result 0))
| llmError error : t (Emit "error" (LLMError error))
| toolError toolUseId toolName error :
    t (Emit "error" (ToolError toolUseId toolName error))
| toolRun toolUse : t (ProcessToolCalls [toolUse]).

(** The same, with the calls of [llm.invokeModel]. *)
Definition record (e : Effect) : Prop :=
  (∃ messages, e = InvokeModel messages) ∨ t e.

End Config.
End Catalogue.

(** [keeps I m]: a run of [m] that starts where [I] holds ends where [I]
    holds. *)
Definition keeps {World A} (I : Agent.State (World:=World) → Prop)
    (m : Agent.M (World:=World) A) : Prop :=
  ∀ s s1, I s → Agent.final (m s) = Some s1 → I s1.

(** Since the record of calls was [base], only calls that satisfy [P] were
    added. *)
Definition addedOnly {World} (P : Effect → Prop) (base : list Effect)
    (s : Agent.State (World:=World)) : Prop :=
  ∃ added, Agent.trace s = base ++ added ∧ Forall P added.

(** Since the record of calls was [base], every call of the model was given
    a log that starts with [from] and that the log of [s] starts with. *)
Definition modelSaw {World} (from : list Message) (base : list Effect)
    (s : Agent.State (World:=World)) : Prop :=
  CM.wf (Agent.conversation s)
  ∧ from `prefix_of` Agent.log s
  ∧ addedOnly
      (λ e, match e with
            | InvokeModel messages =>
                from `prefix_of` messages
                ∧ messages `prefix_of` Agent.log s
            | _ => True
            end) base s.

(** [s] is a state with this bus, this log, this supply of ids and this
    record of calls, and a well-formed store. *)
Definition stands {World}
    (bus : EventBus.t World EventData HandlerValue)
    (messages : list Message) (supply : UUID) (calls : list Effect)
    (s : Agent.State (World:=World)) : Prop :=
  Agent.eventBus s = bus
  ∧ CM.wf (Agent.conversation s)
  ∧ Agent.log s = messages
  ∧ CM.uuidSupply (Agent.conversation s) = supply
  ∧ Agent.trace s = calls.

(** The user messages [initialize] makes of the initial messages, the first
    with the id [supply]. *)
Definition initialUsers (supply : UUID) (initialMessages : list string)
    : list Message :=
  imap (λ i message, UserMessage (supply + i) message) initialMessages.

(** The tool-result messages [executeValidatedTool] makes of what
    [llm.processToolCalls] resolves to, the first with the id [supply]. *)
Definition resultMessages (supply : UUID) (result : list ToolCallResult)
    : list Message :=
  imap (λ i res,
          ToolResultMessage (supply + i) (res_toolUseId res)
            (CM.toolResultOf (res_toolUseId res) (res_content res)
               (content_error (res_content res)))
            (content_error (res_content res))) result.

(** The predicate of the [find] of [executeValidatedTool]. *)
Definition requests (toolUseId : string) (msg : Message) : bool :=
  bool_decide (msg_type msg = TOOL_REQUEST)
  && bool_decide (msg_toolUseId msg = Some toolUseId).

(** A tool request that has a tool result in [log], and anything that is
    not a tool request. *)
Definition answeredIn (log : list Message) (msg : Message) : Prop :=
  msg_type msg = TOOL_REQUEST →
  ∃ m, m ∈ log ∧ msg_type m = TOOL_RESULT
       ∧ msg_toolUseId m = msg_toolUseId msg.

(** One [if (handlers.member) eventBus.on(eventName, handlers.member)] of
    [agent.on], for the entry [(member, eventName)]. *)
Definition subscribe {World}
    (handlers : gmap string (EventBus.Callback World EventData HandlerValue))
    (bus : EventBus.t World EventData HandlerValue)
    (entry : string * string) : EventBus.t World EventData HandlerValue :=
  match handlers !! entry.1 with
  | Some handler => EventBus.on entry.2 handler bus
  | None => bus
  end.

(** ** Concrete agents, used to run the embedding *)
Module Examples.

(** A log that ends in two [info] messages after a user message. *)
Definition infoTail : CM.t :=
  let c := (CM.addSystemMessage "You are helpful" (CM.constructor 0)).2 in
  let c := (CM.addUserMessage "hi" c).2 in
  let c := (CM.addInfoMessage "first note" c).2 in
  (CM.addInfoMessage "second note" c).2.

(** Two listeners of one event, in a world that logs who ran: the first
    throws, the second returns its payload. *)
Definition thrower : EventBus.Callback (list string) string string :=
  λ _ w, (Throw "boom", w ++ ["first ran"]).

Definition logger : EventBus.Callback (list string) string string :=
  λ data w, (Ok data, w ++ ["second ran"]).

Definition throwerFirst : EventBus.t (list string) string string :=
  EventBus.on "toolStart" logger
    (EventBus.on "toolStart" thrower EventBus.constructor).

(** A backend that is down: every call of [invokeModel] throws. The world
    is the number of calls the LLM service has seen. *)
Definition downLLM : LLM nat :=
  {| invokeModel := λ _ n, (Throw "service unavailable", S n);
     processToolCalls := λ _ n, (Throw "service unavailable", S n) |}.

Definition downConfig : Config nat :=
  {| cfg_system := "You are helpful";
     cfg_messages := None;
     cfg_llm := downLLM;
     cfg_tools := None;
     cfg_acceptAll := None |}.

(** A tool that accepts every input; [accept] is what its
    [requiresAcceptance] answers. *)
Definition plainTool (name : string) (accept : bool) : Tool :=
  {| getName := Ok name;
     validate := λ _, Ok {| ok := true; error := None |};
     requiresAcceptance := λ _, Ok accept |}.


(** An LLM service that asks for one call of the tool [name] the first time
    it is invoked and answers ["done"] afterwards, and that runs every tool
    call it is handed with the result ["ok"]. The world is the number of
    calls of [invokeModel] so far. *)
Definition oneCallLLM (name : string) : LLM nat :=
  {| invokeModel := λ _ n,
       match n with
       | 0 => (Ok (AssistantToolRequest (Some [mkToolUse "call-1" name "{}"])),
               1)
       | _ => (Ok (AssistantContent "done"), S n)
       end;
     processToolCalls := λ toolCalls n,
       (Ok (map (λ u, mkToolCallResult (tu_toolUseId u) (ContentString "ok"))
              toolCalls), n) |}.

Definition oneCallConfig (name : string) (tool : Tool) : Config nat :=
  {| cfg_system := "You are helpful";
     cfg_messages := None;
     cfg_llm := oneCallLLM name;
     cfg_tools := Some [tool];
     cfg_acceptAll := Some false |}.

(** The model asks for [fs_write], a name [needsConfirmation] always gates. *)
Definition writerConfig : Config nat :=
  oneCallConfig "fs_write" (plainTool "fs_write" false).




(** The agents right after [createAgent]. *)
Definition downAgent : Agent.State := Agent.createAgent downConfig 0 0.
Definition writerAgent : Agent.State := Agent.createAgent writerConfig 0 0.

(** The tool call the models above ask for. *)
Definition firstCall (name : string) : ToolUse := mkToolUse "call-1" name "{}".

End Examples.

(** ** More concrete stores and agents *)
Module MoreExamples.

(** A store after four calls: a system and a user message, a tool request and
    its result. *)
Definition smallStore : CM.t :=
  let c := (CM.addSystemMessage "You are helpful" (CM.constructor 7)).2 in
  let c := (CM.addUserMessage "list the files" c).2 in
  let c := (CM.addToolRequestMessage "fs_read" "call-1" "{}" c).2 in
  (CM.addToolResultMessage "call-1" (ContentString "a.txt") None c).2.

(** A bus in a world that logs who ran: two listeners of [toolEnd] that
    return, one listener of [error] that throws. *)
Definition first : EventBus.Callback (list string) string string :=
  λ data w, (Ok ("first saw " +:+ data), w ++ ["first ran"]).

Definition second : EventBus.Callback (list string) string string :=
  λ data w, (Ok ("second saw " +:+ data), w ++ ["second ran"]).

Definition busyBus : EventBus.t (list string) string string :=
  EventBus.on "error" Examples.thrower
    (EventBus.on "toolEnd" second
       (EventBus.on "toolEnd" first EventBus.constructor)).



(** An agent that starts with two initial messages. *)
Definition briefedConfig : Config nat :=
  {| cfg_system := "You are helpful";
     cfg_messages := Some ["I am Ada"; "I like short answers"];
     cfg_llm := Examples.oneCallLLM "fs_write";
     cfg_tools := Some [Examples.plainTool "fs_write" false];
     cfg_acceptAll := Some true |}.

Definition briefedAgent : Agent.State := Agent.createAgent briefedConfig 0 0.

(** A store with a tool request that has no result yet. *)
Definition pendingStore : CM.t :=
  let c := (CM.addSystemMessage "You are helpful" (CM.constructor 7)).2 in
  let c := (CM.addUserMessage "list the files" c).2 in
  (CM.addToolRequestMessage "fs_read" "call-1" "{}" c).2.

Definition pendingAgent : Agent.State (World:=nat) :=
  Agent.mkState pendingStore EventBus.constructor 0 [].

(** An LLM service that answers every log with ["hello"]. *)
Definition echoLLM : LLM nat :=
  {| invokeModel := λ _ n, (Ok (AssistantContent "hello"), S n);
     processToolCalls := λ _ n, (Ok [], n) |}.

Definition echoConfig : Config nat :=
  {| cfg_system := "You are helpful";
     cfg_messages := None;
     cfg_llm := echoLLM;
     cfg_tools := None;
     cfg_acceptAll := None |}.

Definition echoAgent : Agent.State := Agent.createAgent echoConfig 0 0.

(** An LLM service that goes by the last message of the log: it asks for
    one call of the tool [name] when that is a user message and answers
    ["done"] otherwise; it runs every tool call it is handed with the
    result ["ok"]. *)
Definition scriptedLLM (name : string) : LLM nat :=
  {| invokeModel := λ messages n,
       match last messages with
       | Some (UserMessage _ _) =>
           (Ok (AssistantToolRequest (Some [mkToolUse "call-1" name "{}"])),
            S n)
       | _ => (Ok (AssistantContent "done"), S n)
       end;
     processToolCalls := λ toolCalls n,
       (Ok (map (λ u, mkToolCallResult (tu_toolUseId u) (ContentString "ok"))
              toolCalls), n) |}.

Definition scriptedConfig : Config nat :=
  {| cfg_system := "You are helpful";
     cfg_messages := None;
     cfg_llm := scriptedLLM "fs_read";
     cfg_tools := Some [Examples.plainTool "fs_read" false];
     cfg_acceptAll := Some true |}.

Definition scriptedAgent : Agent.State := Agent.createAgent scriptedConfig 0 0.




End MoreExamples.

(** * Properties *)

(** ** The conversation manager *)
Module CMFacts.
Import ConversationManager.

Lemma omap_cons {A B} (f : A → option B) x l :
  omap f (x :: l)
  = match f x with Some y => y :: omap f l | None => omap f l end.
Proof. done. Qed.

Lemma wf_constructor supply : wf (constructor supply).
Proof. by apply Forall_nil. Qed.

(** Under [wf] the lookups of [getAllMessages] all succeed. *)
Lemma getAllMessages_length c :
  wf c → length (getAllMessages c) = length (messageOrder c).
Proof.
  unfold wf, getAllMessages. induction 1 as [|id l [_ [m Hm]] _ IH]; [done|].
  rewrite omap_cons, Hm. simpl. by rewrite IH.
Qed.

Lemma omap_lookup_insert_fresh (m : gmap UUID Message) l id x :
  Forall (λ i, i ≠ id) l →
  omap (λ i, <[id := x]> m !! i) l = omap (λ i, m !! i) l.
Proof.
  induction 1 as [|i l Hi _ IH]; [done|].
  rewrite !omap_cons, lookup_insert_ne by done. by rewrite IH.
Qed.

(** Appending a message whose id comes from the supply: the store stays
    well formed and the message is the new last element of the log. *)
Lemma add_fresh (build : UUID → Message) c :
  (∀ id, msg_id (build id) = id) →
  wf c →
  let c1 := (addMessage (build (uuidSupply c)) (randomUUID c).2).2 in
  wf c1 ∧ getAllMessages c1 = getAllMessages c ++ [build (uuidSupply c)]
  ∧ uuidSupply c1 = S (uuidSupply c).
Proof.
  intros Hid Hwf. simpl. unfold wf, getAllMessages. simpl. rewrite Hid.
  split_and!; [| |done].
  - apply Forall_app. split.
    + eapply Forall_impl; [exact Hwf|]. simpl. intros i [Hlt [m Hm]].
      split; [lia|]. rewrite lookup_insert_ne by lia. eauto.
    + apply Forall_singleton. split; [lia|]. rewrite lookup_insert_eq. eauto.
  - rewrite omap_app. simpl. rewrite lookup_insert_eq. f_equal.
    apply omap_lookup_insert_fresh.
    eapply Forall_impl; [exact Hwf|]. simpl. lia.
Qed.

Lemma addSystemMessage_spec content c :
  wf c →
  wf (addSystemMessage content c).2
  ∧ getAllMessages (addSystemMessage content c).2
    = getAllMessages c ++ [SystemMessage (uuidSupply c) content].
Proof.
  intros H. destruct (add_fresh (λ id, SystemMessage id content) c) as (?&?&?);
    by eauto.
Qed.

Lemma addUserMessage_spec content c :
  wf c →
  wf (addUserMessage content c).2
  ∧ getAllMessages (addUserMessage content c).2
    = getAllMessages c ++ [UserMessage (uuidSupply c) content].
Proof.
  intros H. destruct (add_fresh (λ id, UserMessage id content) c) as (?&?&?);
    by eauto.
Qed.

Lemma addAssistantMessage_spec content c :
  wf c →
  wf (addAssistantMessage content c).2
  ∧ getAllMessages (addAssistantMessage content c).2
    = getAllMessages c ++ [AssistantMessage (uuidSupply c) content].
Proof.
  intros H.
  destruct (add_fresh (λ id, AssistantMessage id content) c) as (?&?&?);
    by eauto.
Qed.



Lemma addInfoMessage_spec content c :
  wf c →
  wf (addInfoMessage content c).2
  ∧ getAllMessages (addInfoMessage content c).2
    = getAllMessages c ++ [InfoMessage (uuidSupply c) content content].
Proof.
  intros H.
  destruct (add_fresh (λ id, InfoMessage id content content) c) as (?&?&?);
    by eauto.
Qed.

Lemma appends_addMessage (build : UUID → Message) :
  (∀ id, msg_id (build id) = id) →
  appends (λ c, addMessage (build (uuidSupply c)) (randomUUID c).2).
Proof.
  intros Hid c Hwf. destruct (add_fresh build c Hid Hwf) as (H1 & H2 & _).
  split; [exact H1|]. rewrite H2. by apply prefix_app_r.
Qed.

Lemma appends_addSystemMessage content : appends (addSystemMessage content).
Proof. by apply (appends_addMessage (λ id, SystemMessage id content)). Qed.

Lemma appends_addUserMessage content : appends (addUserMessage content).
Proof. by apply (appends_addMessage (λ id, UserMessage id content)). Qed.

Lemma appends_addAssistantMessage content :
  appends (addAssistantMessage content).
Proof. by apply (appends_addMessage (λ id, AssistantMessage id content)). Qed.

Lemma appends_addToolRequestMessage toolName toolUseId input :
  appends (addToolRequestMessage toolName toolUseId input).
Proof.
  by apply (appends_addMessage
              (λ id, ToolRequestMessage id
                       (mkToolUse toolUseId toolName input)
                       toolName toolUseId)).
Qed.

Lemma appends_addToolResultMessage toolUseId content error :
  appends (addToolResultMessage toolUseId content error).
Proof.
  by apply (appends_addMessage
              (λ id, ToolResultMessage id toolUseId
                       (toolResultOf toolUseId content error) error)).
Qed.

(** [getLastMessage] is the last element of the log. *)
Lemma getLastMessage_last c :
  wf c → getLastMessage c = last (getAllMessages c).
Proof.
  unfold wf, getLastMessage, getAllMessages.
  destruct (messageOrder c) as [|i l] using rev_ind; [done|].
  intros H. rewrite last_snoc, omap_app. simpl.
  apply Forall_app in H as [_ H]. apply Forall_singleton in H as [_ [m Hm]].
  rewrite Hm. simpl. by rewrite last_snoc.
Qed.

(** The backward loop over a log extended on the right only looks at the
    part below its start index. *)
Lemma previousNonInfo_prefix l r :
  Spec.ofNextAction (previousNonInfo (l ++ r) (length l))
  = Spec.nextAction (Spec.lastSubstantive l).
Proof.
  revert r. induction l as [|m l IH] using rev_ind; intros r; [done|].
  rewrite length_app. simpl. rewrite Nat.add_1_r. simpl.
  rewrite <- app_assoc. rewrite lookup_app_r by lia.
  rewrite Nat.sub_diag. simpl.
  unfold Spec.lastSubstantive. rewrite List.filter_app. simpl.
  case_bool_decide as Hm; simpl.
  - rewrite last_snoc. simpl. by destruct (msg_type m).
  - rewrite app_nil_r. apply IH.
Qed.

End CMFacts.

(** ** The next action *)
Section NextAction.
Import ConversationManager CMFacts.

Lemma lastSubstantive_snoc l m :
  Spec.lastSubstantive (l ++ [m])
  = if bool_decide (msg_type m ≠ INFO) then Some (msg_type m)
    else Spec.lastSubstantive l.
Proof.
  unfold Spec.lastSubstantive. rewrite List.filter_app. simpl.
  case_bool_decide; simpl; [by rewrite last_snoc | by rewrite app_nil_r].
Qed.

(** C4. The next action is a function of the kind of the most recent message
    that is not [info]: nothing or [system] waits for the user, [user] and
    [tool-result] invoke the model, [assistant] waits for the user,
    [tool-request] runs the tool; trailing [info] messages are skipped. *)
Theorem getNextAction_last_substantive (c : CM.t) :
  CM.wf c →
  Spec.ofNextAction (CM.getNextAction c)
  = Spec.nextAction (Spec.lastSubstantive (CM.getAllMessages c)).
Proof.
  intros Hwf. unfold getNextAction. rewrite getLastMessage_last by done.
  destruct (getAllMessages c) as [|m l _] using rev_ind; [done|].
  rewrite last_snoc, lastSubstantive_snoc.
  destruct (msg_type m) eqn:Hm; try done.
  rewrite length_app. simpl. rewrite Nat.add_1_r. simpl. rewrite Nat.sub_0_r.
  apply previousNonInfo_prefix.
Qed.

Lemma getNextAction_last_substantive_witness :
  CM.wf Examples.infoTail
  ∧ Spec.ofNextAction (CM.getNextAction Examples.infoTail) = Spec.InvokeModel.
Proof.
  assert (H : CM.wf Examples.infoTail)
    by (apply (bool_decide_unpack _); vm_compute; exact I).
  split; [exact H|].
  rewrite (getNextAction_last_substantive Examples.infoTail H).
  reflexivity.
Defined.

End NextAction.

(** ** More on the conversation manager *)
Module CMMore.
Import ConversationManager CMFacts.

Lemma call_eq a c :
  Append.call a c
  = addMessage (Append.message a (uuidSupply c)) (randomUUID c).2.
Proof. by destruct a. Qed.

Lemma message_id a id : msg_id (Append.message a id) = id.
Proof. by destruct a. Qed.

Lemma message_type a id : msg_type (Append.message a id) = Append.type a.
Proof. by destruct a. Qed.

(** X1. Each of the six [add...Message] methods appends exactly one message
    at the end of the log and returns its id, which identifies it; the
    messages that were there keep their place, and the store stays well
    formed. *)
Theorem append_extends_log a c :
  wf c →
  (Append.call a c).1 = uuidSupply c
  ∧ getAllMessages (Append.call a c).2
    = getAllMessages c ++ [Append.message a (Append.call a c).1]
  ∧ msg_id (Append.message a (Append.call a c).1) = (Append.call a c).1
  ∧ wf (Append.call a c).2.
Proof.
  intros Hwf. rewrite call_eq.
  destruct (add_fresh (Append.message a) c (message_id a) Hwf)
    as (Hwf1 & Hlog & _).
  cbn [addMessage fst]. rewrite !message_id. by split_and!.
Qed.

(** X2. After an [add...Message] method, [getMessage] of the returned id is
    the new message, and [getMessage] of every id that was in the store
    answers what it answered before. *)
Theorem append_lookup a c :
  wf c →
  getMessage (Append.call a c).1 (Append.call a c).2
  = Some (Append.message a (uuidSupply c))
  ∧ ∀ id, id ∈ messageOrder c →
      getMessage id (Append.call a c).2 = getMessage id c.
Proof.
  intros Hwf. rewrite call_eq. unfold getMessage. cbn [addMessage fst snd].
  cbn [messages randomUUID snd]. rewrite message_id. split.
  - by rewrite lookup_insert_eq.
  - intros id Hin. rewrite lookup_insert_ne; [done|].
    unfold wf in Hwf. rewrite Forall_forall in Hwf.
    destruct (Hwf id Hin) as [Hlt _]. lia.
Qed.

Lemma append_extends_log_witness :
  getAllMessages
    (Append.call (Append.Assistant "two files") MoreExamples.smallStore).2
  = getAllMessages MoreExamples.smallStore
    ++ [AssistantMessage 11 "two files"].
Proof.
  refine (proj1 (proj2 (append_extends_log (Append.Assistant "two files")
                          MoreExamples.smallStore _))).
  apply (bool_decide_unpack _). vm_compute. exact I.
Defined.

Lemma append_lookup_witness :
  getMessage 8 (Append.call (Append.User "and now?") MoreExamples.smallStore).2
  = getMessage 8 MoreExamples.smallStore.
Proof.
  refine (proj2 (append_lookup (Append.User "and now?")
                   MoreExamples.smallStore _) 8 _).
  - apply (bool_decide_unpack _). vm_compute. exact I.
  - apply (bool_decide_unpack _). vm_compute. exact I.
Defined.

(** *** The index and the order array stay in step *)

Lemma call_log a c :
  wf c →
  wf (Append.call a c).2
  ∧ getAllMessages (Append.call a c).2
    = getAllMessages c ++ [Append.message a (uuidSupply c)].
Proof.
  intros Hwf. rewrite call_eq.
  by destruct (add_fresh (Append.message a) c (message_id a) Hwf)
    as (? & ? & _).
Qed.

Lemma indexed_constructor supply : Append.indexed (constructor supply).
Proof.
  split_and!; [apply wf_constructor|apply NoDup_nil_2|apply map_Forall_empty].
Qed.

Lemma indexed_call a c :
  Append.indexed c → Append.indexed (Append.call a c).2.
Proof.
  intros (Hwf & Hnd & Hidx).
  destruct (call_log a c Hwf) as (Hwf1 & _).
  split; [exact Hwf1|]. rewrite call_eq. cbn [addMessage snd].
  cbn [messages messageOrder randomUUID snd]. rewrite message_id. split.
  - apply NoDup_app. split_and!; [done| |apply NoDup_singleton].
    intros id Hin Hid. apply list_elem_of_singleton in Hid as ->.
    unfold wf in Hwf. rewrite Forall_forall in Hwf.
    destruct (Hwf _ Hin). lia.
  - apply map_Forall_insert_2.
    + rewrite message_id. split; [done|]. apply elem_of_app. right.
      by apply list_elem_of_singleton.
    + eapply map_Forall_impl; [exact Hidx|]. simpl. intros id m [H1 H2].
      split; [done|]. apply elem_of_app. by left.
Qed.

Lemma indexed_clear c : Append.indexed (clear c).
Proof.
  split_and!; [by apply Forall_nil|apply NoDup_nil_2|apply map_Forall_empty].
Qed.

(** X3. The index and the order array never drift apart: the empty store is
    in step, every [add...Message] method keeps a store in step, and
    [clear] leaves it in step. *)
Theorem indexed_kept supply calls c :
  Append.indexed c →
  Append.indexed (constructor supply)
  ∧ Append.indexed (foldl (λ c a, (Append.call a c).2) c calls)
  ∧ Append.indexed (clear c).
Proof.
  intros Hc. split_and!.
  - apply indexed_constructor.
  - revert c Hc. induction calls as [|a calls IH]; intros c Hc; [done|].
    simpl. by apply IH, indexed_call.
  - apply indexed_clear.
Qed.

Lemma indexed_kept_witness :
  Append.indexed
    (foldl (λ c a, (Append.call a c).2) MoreExamples.smallStore
       [Append.Info "note"; Append.User "thanks"]).
Proof.
  refine (proj1 (proj2 (indexed_kept 0 [Append.Info "note";
                                        Append.User "thanks"]
                          MoreExamples.smallStore _))).
  apply (bool_decide_unpack _). vm_compute. exact I.
Defined.

Lemma ids_of_log (m : gmap UUID Message) l :
  Forall (λ id, ∃ x, m !! id = Some x ∧ msg_id x = id) l →
  map msg_id (omap (λ id, m !! id) l) = l.
Proof.
  induction 1 as [|id l (x & Hx & Hid) _ IH]; [done|].
  rewrite omap_cons, Hx. simpl. by rewrite Hid, IH.
Qed.

(** X4. In a store whose index and order array are in step, a message is in
    the log exactly when [getMessage] of its own id answers it, the ids of
    the log are the order array, and no two messages of the log share
    an id. *)
Theorem log_by_id c :
  Append.indexed c →
  (∀ m, m ∈ getAllMessages c ↔ getMessage (msg_id m) c = Some m)
  ∧ map msg_id (getAllMessages c) = messageOrder c
  ∧ NoDup (map msg_id (getAllMessages c)).
Proof.
  intros (Hwf & Hnd & Hidx).
  assert (Hids : map msg_id (getAllMessages c) = messageOrder c).
  { apply ids_of_log. unfold wf in Hwf. rewrite Forall_forall in Hwf.
    apply Forall_forall. intros id Hin. destruct (Hwf id Hin) as [_ [x Hx]].
    exists x. split; [done|]. by destruct (Hidx id x Hx). }
  split_and!; [|done|by rewrite Hids].
  intros m. unfold getAllMessages, getMessage. rewrite list_elem_of_omap.
  split.
  - intros (id & Hin & Hm). by destruct (Hidx id m Hm) as [-> _].
  - intros Hm. exists (msg_id m). split; [|done].
    by destruct (Hidx _ m Hm).
Qed.

Lemma log_by_id_witness :
  NoDup (map msg_id (getAllMessages MoreExamples.smallStore)).
Proof.
  refine (proj2 (proj2 (log_by_id MoreExamples.smallStore _))).
  apply (bool_decide_unpack _). vm_compute. exact I.
Defined.

(** *** What the views show after a message is added *)

(** X5. After an [add...Message] method, [getLastMessage] is the new
    message; [getMessagesByType] of the type of the new message has it at
    the end and is unchanged for every other type; [getLastUserMessage] is
    the new message when it is a user message and is unchanged otherwise. *)
Theorem views_after_append a c :
  wf c →
  let new := Append.message a (uuidSupply c) in
  getLastMessage (Append.call a c).2 = Some new
  ∧ (∀ type,
       getMessagesByType type (Append.call a c).2
       = getMessagesByType type c
         ++ (if bool_decide (Append.type a = type) then [new] else []))
  ∧ getLastUserMessage (Append.call a c).2
    = if bool_decide (Append.type a = USER) then Some new
      else getLastUserMessage c.
Proof.
  intros Hwf new. destruct (call_log a c Hwf) as [Hwf1 Hlog].
  assert (Hby : ∀ type,
            getMessagesByType type (Append.call a c).2
            = getMessagesByType type c
              ++ (if bool_decide (Append.type a = type) then [new] else [])).
  { intros type. unfold getMessagesByType. rewrite Hlog, List.filter_app.
    simpl. subst new. rewrite message_type. by case_bool_decide. }
  split_and!; [|done|].
  - rewrite getLastMessage_last by done. by rewrite Hlog, last_snoc.
  - unfold getLastUserMessage. rewrite Hby.
    case_bool_decide; [by rewrite last_snoc|by rewrite app_nil_r].
Qed.

Lemma views_after_append_witness :
  getLastUserMessage
    (Append.call (Append.Info "note") MoreExamples.smallStore).2
  = getLastUserMessage MoreExamples.smallStore.
Proof.
  refine (proj2 (proj2 (views_after_append (Append.Info "note")
                          MoreExamples.smallStore _))).
  apply (bool_decide_unpack _). vm_compute. exact I.
Defined.

(** The backward loop of [getNextAction] never looks above its start. *)
Lemma previousNonInfo_app (l r : list Message) (n : nat) :
  (n ≤ length l)%nat → previousNonInfo (l ++ r) n = previousNonInfo l n.
Proof.
  induction n as [|i IH]; intros Hn; [done|]. simpl.
  rewrite lookup_app_l by lia. destruct (l !! i) as [m|]; [|done].
  case_bool_decide; [done|]. apply IH. lia.
Qed.

(** X6. How the next action moves when a message is added: a user message
    asks for the model, an assistant or a system message waits for the user,
    a tool request asks for the tool, a tool result asks for the model; an
    info message leaves the next action exactly as it was. *)
Theorem next_action_after_append a c :
  wf c →
  getNextAction (Append.call a c).2
  = match a with
    | Append.Info _ => getNextAction c
    | _ => getNextActionForType (Append.type a)
    end.
Proof.
  intros Hwf. destruct (call_log a c Hwf) as [Hwf1 Hlog].
  unfold getNextAction at 1. rewrite getLastMessage_last by done.
  rewrite Hlog, last_snoc, message_type.
  destruct a; try done. cbn [Append.type].
  rewrite length_app. cbn [length]. rewrite Nat.add_1_r.
  cbn [Nat.sub]. rewrite Nat.sub_0_r.
  unfold getNextAction. rewrite getLastMessage_last by done.
  destruct (getAllMessages c) as [|m l _] using rev_ind; [done|].
  rewrite last_snoc, length_app. cbn [length]. rewrite Nat.add_1_r.
  cbn [previousNonInfo]. rewrite <- app_assoc.
  rewrite lookup_app_r by lia. rewrite Nat.sub_diag. cbn [lookup].
  simpl. case_bool_decide as Hm.
  - by destruct (msg_type m).
  - rewrite Hm. cbn [Nat.sub].
    rewrite Nat.sub_0_r.
    rewrite (previousNonInfo_app l) by done.
    by rewrite (previousNonInfo_app l) by done.
Qed.

Lemma next_action_after_append_witness :
  getNextAction (Append.call (Append.Info "note") MoreExamples.smallStore).2
  = getNextAction MoreExamples.smallStore.
Proof.
  refine (next_action_after_append (Append.Info "note")
            MoreExamples.smallStore _).
  apply (bool_decide_unpack _). vm_compute. exact I.
Defined.

End CMMore.

(** ** The event bus *)
Section EventBusFacts.
Context {World Data Value : Type}.
Implicit Types (bus : EventBus.t World Data Value).
Implicit Types (cb : EventBus.Callback World Data Value).

Lemma on_lookup eventName cb bus :
  EventBus.listeners (EventBus.on eventName cb bus) !! eventName
  = Some (default [] (EventBus.listeners bus !! eventName) ++ [cb]).
Proof. unfold EventBus.on. simpl. by rewrite lookup_insert_eq. Qed.

Lemma on_lookup_ne eventName other cb bus :
  eventName ≠ other →
  EventBus.listeners (EventBus.on eventName cb bus) !! other
  = EventBus.listeners bus !! other.
Proof. intros. unfold EventBus.on. simpl. by rewrite lookup_insert_ne. Qed.

(** [map] over two arrays in a row: the second is only reached when no
    callback of the first throws, and starts in the world the first left. *)
Lemma mapCallbacks_app (l1 l2 : list (EventBus.Callback World Data Value))
    data w :
  EventBus.mapCallbacks (l1 ++ l2) data w
  = match EventBus.mapCallbacks l1 data w with
    | (Ok vs, w1) =>
        match EventBus.mapCallbacks l2 data w1 with
        | (Ok vs2, w2) => (Ok (vs ++ vs2), w2)
        | (Throw e, w2) => (Throw e, w2)
        end
    | (Throw e, w1) => (Throw e, w1)
    end.
Proof.
  revert w. induction l1 as [|cb l1 IH]; intros w; simpl.
  - by destruct (EventBus.mapCallbacks l2 data w) as [[]].
  - destruct (cb data w) as [[v|e] w1]; [|done]. rewrite IH.
    destruct (EventBus.mapCallbacks l1 data w1) as [[vs|e] w2]; [|done].
    by destruct (EventBus.mapCallbacks l2 data w2) as [[]].
Qed.

Lemma emit_mapCallbacks eventName data bus w :
  EventBus.emit eventName data bus w
  = EventBus.mapCallbacks
      (default [] (EventBus.listeners bus !! eventName)) data w.
Proof.
  unfold EventBus.emit.
  by destruct (EventBus.listeners bus !! eventName) as [[|]|].
Qed.

(** A bus without throwing listeners: [emit] returns. *)
Lemma mapCallbacks_total (cbs : list (EventBus.Callback World Data Value))
    data w :
  Forall EventBus.total cbs →
  ∃ vs w1, EventBus.mapCallbacks cbs data w = (Ok vs, w1).
Proof.
  intros H. revert w. induction H as [|cb cbs Hcb _ IH]; intros w; simpl.
  - eauto.
  - destruct (Hcb data w) as (v & w1 & ->).
    destruct (IH w1) as (vs & w2 & ->). eauto.
Qed.

Lemma quiet_emit_returns eventName data bus w :
  EventBus.quiet bus →
  ∃ vs w1, EventBus.emit eventName data bus w = (Ok vs, w1).
Proof.
  intros Hq. rewrite emit_mapCallbacks.
  destruct (EventBus.listeners bus !! eventName) as [cbs|] eqn:E; simpl.
  - apply mapCallbacks_total. by eapply Hq.
  - eauto.
Qed.

Lemma quiet_constructor :
  EventBus.quiet (World:=World) (Data:=Data) (Value:=Value)
    EventBus.constructor.
Proof. intros name cbs. simpl. by rewrite lookup_empty. Qed.

(** C7, as the code has it. A subscription goes to the end of the array of
    its event. [emit] calls the listeners from the first subscribed to the
    last, each in the world its predecessors left; when all return, their
    results come back in that order; the first listener that throws ends
    the publication: its error reaches the publisher and the listeners
    after it are not called. *)
Theorem emit_in_subscription_order eventName data bus w pre cb post vs w1 :
  EventBus.listeners bus !! eventName = Some (pre ++ cb :: post) →
  EventBus.mapCallbacks pre data w = (Ok vs, w1) →
  (∀ cb', EventBus.listeners (EventBus.on eventName cb' bus) !! eventName
          = Some ((pre ++ cb :: post) ++ [cb']))
  ∧ match cb data w1 with
    | (Throw e, w2) => EventBus.emit eventName data bus w = (Throw e, w2)
    | (Ok v, w2) =>
        EventBus.emit eventName data bus w
        = match EventBus.mapCallbacks post data w2 with
          | (Ok vs', w3) => (Ok (vs ++ v :: vs'), w3)
          | (Throw e, w3) => (Throw e, w3)
          end
    end.
Proof.
  intros Hl Hpre. split.
  - intros cb'. by rewrite on_lookup, Hl.
  - rewrite emit_mapCallbacks, Hl. simpl. rewrite mapCallbacks_app, Hpre.
    simpl. destruct (cb data w1) as [[v|e] w2]; [|done].
    by destruct (EventBus.mapCallbacks post data w2) as [[]].
Qed.

End EventBusFacts.

Lemma emit_in_subscription_order_witness :
  EventBus.emit "toolStart" "payload" Examples.throwerFirst []
  = (Throw "boom", ["first ran"]).
Proof.
  refine (proj2 (emit_in_subscription_order "toolStart" "payload"
                   Examples.throwerFirst [] [] Examples.thrower
                   [Examples.logger] [] [] _ _)).
  - vm_compute. reflexivity.
  - reflexivity.
Defined.

(** C7 fails as stated: with a throwing listener subscribed before a second
    one, [emit] throws to the publisher, and the world shows that the second
    listener was never called. *)
Lemma emit_throws_counterexample :
  EventBus.emit "toolStart" "payload" Examples.throwerFirst []
  = (Throw "boom", ["first ran"])
  ∧ EventBus.listeners Examples.throwerFirst !! "toolStart"
    = Some [Examples.thrower; Examples.logger].
Proof. split; vm_compute; reflexivity. Qed.

(** ** More on the event bus *)
Section EventBusMore.
Context {World Data Value : Type}.
Implicit Types (bus : EventBus.t World Data Value).
Implicit Types (cb : EventBus.Callback World Data Value).

(** X7. A new subscription is served last: [emit] on the bus with one more
    listener of the event calls the listeners that were there, as before,
    and then the new one in the world they left, and its result comes last;
    when one of the earlier listeners throws, the new one is not called.
    The listeners of the other events are not touched. *)
Theorem on_then_emit eventName other cb data bus w :
  eventName ≠ other →
  EventBus.emit eventName data (EventBus.on eventName cb bus) w
  = match EventBus.emit eventName data bus w with
    | (Ok vs, w1) =>
        match cb data w1 with
        | (Ok v, w2) => (Ok (vs ++ [v]), w2)
        | (Throw e, w2) => (Throw e, w2)
        end
    | (Throw e, w1) => (Throw e, w1)
    end
  ∧ EventBus.emit other data (EventBus.on eventName cb bus) w
    = EventBus.emit other data bus w.
Proof.
  intros Hne. split.
  - rewrite !emit_mapCallbacks, on_lookup.
    simpl (default _ (Some _)). rewrite mapCallbacks_app.
    destruct (EventBus.mapCallbacks _ data w) as [[vs|e] w1]; [|done].
    simpl. by destruct (cb data w1) as [[v|e] w2].
  - by rewrite !emit_mapCallbacks, on_lookup_ne.
Qed.

(** X8. [clearListeners(eventName)] silences that event and no other: an
    [emit] of it calls nobody and returns the empty array, an [emit] of
    another event does what it did before, and a listener subscribed after
    the clearing is the only one called. [clearAllListeners()] silences
    every event. *)
Theorem clear_silences eventName other cb data bus w :
  eventName ≠ other →
  EventBus.emit eventName data (EventBus.clearListeners eventName bus) w
  = (Ok [], w)
  ∧ EventBus.emit other data (EventBus.clearListeners eventName bus) w
    = EventBus.emit other data bus w
  ∧ EventBus.emit eventName data
      (EventBus.on eventName cb (EventBus.clearListeners eventName bus)) w
    = EventBus.mapCallbacks [cb] data w
  ∧ EventBus.emit other data (EventBus.clearAllListeners bus) w = (Ok [], w).
Proof.
  intros Hne. rewrite !emit_mapCallbacks, on_lookup.
  unfold EventBus.clearListeners, EventBus.clearAllListeners. simpl.
  rewrite lookup_delete_eq, lookup_delete_ne, lookup_empty by done.
  by split_and!.
Qed.

Lemma mapCallbacks_length
    (cbs : list (EventBus.Callback World Data Value)) data w vs w1 :
  EventBus.mapCallbacks cbs data w = (Ok vs, w1) → length vs = length cbs.
Proof.
  revert w vs. induction cbs as [|cb cbs IH]; intros w vs; simpl.
  - by intros [= <- _].
  - destruct (cb data w) as [[v|e] w0]; [|done].
    destruct (EventBus.mapCallbacks cbs data w0) as [[vs0|e] w2] eqn:E;
      [|done].
    intros [= <- <-]. simpl. f_equal. by eapply IH.
Qed.

Lemma mapCallbacks_throw
    (cbs : list (EventBus.Callback World Data Value)) data w e w1 :
  EventBus.mapCallbacks cbs data w = (Throw e, w1) →
  ∃ pre cb post vs w0,
    cbs = pre ++ cb :: post
    ∧ EventBus.mapCallbacks pre data w = (Ok vs, w0)
    ∧ cb data w0 = (Throw e, w1).
Proof.
  revert w. induction cbs as [|cb cbs IH]; intros w; simpl; [done|].
  destruct (cb data w) as [[v|e0] w0] eqn:Hcb.
  - destruct (EventBus.mapCallbacks cbs data w0) as [[vs0|e1] w2] eqn:E;
      [done|].
    intros [= -> ->].
    destruct (IH w0 E) as (pre & cb1 & post & vs & w3 & -> & Hpre & Hthrow).
    exists (cb :: pre), cb1, post, (v :: vs), w3. simpl.
    by rewrite Hcb, Hpre.
  - intros [= -> ->]. by exists [], cb, cbs, [], w.
Qed.

(** X9. What [emit] gives back accounts for the listeners. When it returns,
    every listener of the event was called and the array has one result for
    each. When it throws, the error is the one a listener of the event
    threw, after every listener subscribed before it had returned. *)
Theorem emit_accounts eventName data bus w r w1 :
  EventBus.emit eventName data bus w = (r, w1) →
  let cbs := default [] (EventBus.listeners bus !! eventName) in
  match r with
  | Ok vs => length vs = length cbs
  | Throw e =>
      ∃ pre cb post vs w0,
        cbs = pre ++ cb :: post
        ∧ EventBus.mapCallbacks pre data w = (Ok vs, w0)
        ∧ cb data w0 = (Throw e, w1)
  end.
Proof.
  rewrite emit_mapCallbacks. intros H cbs. destruct r as [vs|e].
  - by eapply mapCallbacks_length.
  - by apply mapCallbacks_throw.
Qed.

End EventBusMore.

Lemma on_then_emit_witness :
  EventBus.emit "toolEnd" "call-1" MoreExamples.busyBus []
  = (Ok ["first saw call-1"; "second saw call-1"],
     ["first ran"; "second ran"]).
Proof.
  etrans.
  - refine (proj2 (on_then_emit "error" "toolEnd" Examples.thrower "call-1"
                     _ [] _)).
    done.
  - etrans.
    + refine (proj1 (on_then_emit "toolEnd" "error" MoreExamples.second
                       "call-1" _ [] _)).
      done.
    + vm_compute. reflexivity.
Defined.

Lemma clear_silences_witness :
  EventBus.emit "error" "boom"
    (EventBus.clearListeners "error" MoreExamples.busyBus) []
  = (Ok [], []).
Proof.
  refine (proj1 (clear_silences "error" "toolEnd" Examples.thrower "boom"
                   MoreExamples.busyBus [] _)).
  done.
Defined.

Lemma emit_accounts_witness :
  ∃ pre cb post vs w0,
    default [] (EventBus.listeners MoreExamples.busyBus !! "error")
    = pre ++ cb :: post
    ∧ EventBus.mapCallbacks pre "boom" [] = (Ok vs, w0)
    ∧ cb "boom" w0 = (Throw "boom", ["first ran"]).
Proof.
  refine (emit_accounts "error" "boom" MoreExamples.busyBus []
            (Throw "boom") ["first ran"] _).
  vm_compute. reflexivity.
Defined.

(** ** Tools made by [createTool] *)
Section CreateTool.
Variable defined : Input → string → bool.



End CreateTool.


(** ** The agent *)
Module AgentFacts.
Import Agent.

#[local] Notation "x ← y ; z" := (bind y (λ x, z))
  (at level 20, y at level 100, z at level 200, only parsing).
#[local] Notation "x ;; z" := (bind x (λ _, z))
  (at level 100, z at level 200, only parsing, right associativity).

Section Laws.
Context {World : Type}.
Implicit Types (s : State (World:=World)).


Lemma bind_Returned {A B} (m : M (World:=World) A)
    (f : A → M (World:=World) B) s a s1 :
  m s = Returned a s1 → bind m f s = f a s1.
Proof. intros H. unfold bind. by rewrite H. Qed.


Lemma onConversation_eq {A} (f : CM.t → A * CM.t) s :
  onConversation f s
  = Returned (f (conversation s)).1
      (set_conversation (f (conversation s)).2 s).
Proof. unfold onConversation. by destruct (f (conversation s)). Qed.

(** *** What a computation may do to the bus, and whether it may throw *)

Lemma obeys_weaken {A} b (m : M (World:=World) A) : obeys false m → obeys b m.
Proof.
  intros H s Hq. specialize (H s Hq). destruct (m s); try done.
  by destruct H.
Qed.

Lemma obeys_ret {A} b (a : A) : obeys (World:=World) b (ret a).
Proof. by intros s Hq. Qed.

Lemma obeys_bind {A B} b (m : M (World:=World) A)
    (f : A → M (World:=World) B) :
  obeys b m → (∀ a, obeys b (f a)) → obeys b (bind m f).
Proof.
  intros Hm Hf s Hq. unfold bind. specialize (Hm s Hq).
  destruct (m s) as [a s1|e s1|]; [|done..].
  assert (Hq1 : EventBus.quiet (eventBus s1)) by by rewrite Hm.
  specialize (Hf a s1 Hq1). destruct (f a s1); [congruence| |done].
  destruct Hf. split; congruence.
Qed.

Lemma obeys_tryCatch {A} b (body : M (World:=World) A)
    (handler : string → M (World:=World) A) :
  obeys true body → (∀ e, obeys b (handler e)) →
  obeys b (tryCatch body handler).
Proof.
  intros Hm Hh s Hq. unfold tryCatch. specialize (Hm s Hq).
  destruct (body s) as [a s1|e s1|]; [done| |done].
  destruct Hm as [_ Hm].
  assert (Hq1 : EventBus.quiet (eventBus s1)) by by rewrite Hm.
  specialize (Hh e s1 Hq1). destruct (handler e s1); [congruence| |done].
  destruct Hh. split; congruence.
Qed.

Lemma obeys_onConversation {A} b (f : CM.t → A * CM.t) :
  obeys (World:=World) b (onConversation f).
Proof.
  intros s Hq. unfold onConversation. by destruct (f (conversation s)).
Qed.

Lemma obeys_ofConversation {A} b (f : CM.t → A) :
  obeys (World:=World) b (ofConversation f).
Proof. by intros s Hq. Qed.

Lemma obeys_call {A} e (f : World → Outcome A * World) :
  obeys true (call e f).
Proof.
  intros s Hq. unfold call. by destruct (f (world s)) as [[a|msg] w].
Qed.

Lemma obeys_ofTool {A} (o : Outcome A) : obeys (World:=World) true (ofTool o).
Proof. intros s Hq. unfold ofTool. by destruct o. Qed.

(** On a quiet bus [emit] returns, and leaves a record and the world its
    listeners made. *)
Lemma emit_returns eventName data s :
  EventBus.quiet (eventBus s) →
  ∃ vs w,
    emit eventName data s
    = Returned vs (set_world w (record (Emit eventName data) s)).
Proof.
  intros Hq. unfold emit, call.
  destruct (quiet_emit_returns eventName data (eventBus s) (world s) Hq)
    as (vs & w & ->). eauto.
Qed.

Lemma obeys_emit b eventName data :
  obeys (World:=World) b (emit eventName data).
Proof.
  intros s Hq. destruct (emit_returns eventName data s Hq) as (vs & w & ->).
  done.
Qed.

End Laws.

Create HintDb obeys.

#[local] Hint Resolve obeys_ret obeys_onConversation obeys_ofConversation
  obeys_call obeys_ofTool obeys_emit : obeys.

(** Split a goal [obeys b m] along the shape of [m]. *)
#[local] Ltac obeys_step :=
  match goal with
  | |- obeys _ (bind _ _) => apply obeys_bind; [|intros ?]
  | |- obeys _ (tryCatch _ _) => apply obeys_tryCatch; [|intros ?]
  | |- obeys _ (match ?x with _ => _ end) => destruct x
  | |- obeys _ (if ?x then _ else _) => destruct x
  | |- obeys _ _ => solve [eauto with obeys]
  end.

(** *** The record of calls and the log only grow *)
Section Grows.
Context {World : Type}.
Implicit Types (s : State (World:=World)).

Lemma grows_ret {A} (a : A) : grows (World:=World) (ret a).
Proof. intros s s1 [= <-]. done. Qed.

Lemma grows_bind {A B} (m : M (World:=World) A)
    (f : A → M (World:=World) B) :
  grows m → (∀ a, grows (f a)) → grows (bind m f).
Proof.
  intros Hm Hf s s2. unfold bind. specialize (Hm s).
  destruct (m s) as [a s1|e s1|]; simpl in *; [|by auto|done].
  intros H. destruct (Hm s1 eq_refl) as [Ht Hl].
  destruct (Hf a s1 s2 H) as [Ht2 Hl2].
  split; [by etrans|]. intros Hwf. destruct (Hl Hwf) as [Hwf1 Hp].
  destruct (Hl2 Hwf1) as [Hwf2 Hp2]. split; [done|by etrans].
Qed.

Lemma grows_tryCatch {A} (body : M (World:=World) A)
    (handler : string → M (World:=World) A) :
  grows body → (∀ e, grows (handler e)) → grows (tryCatch body handler).
Proof.
  intros Hm Hh s s2. unfold tryCatch. specialize (Hm s).
  destruct (body s) as [a s1|e s1|]; simpl in *; [by auto| |done].
  intros H. destruct (Hm s1 eq_refl) as [Ht Hl].
  destruct (Hh e s1 s2 H) as [Ht2 Hl2].
  split; [by etrans|]. intros Hwf. destruct (Hl Hwf) as [Hwf1 Hp].
  destruct (Hl2 Hwf1) as [Hwf2 Hp2]. split; [done|by etrans].
Qed.

Lemma grows_onConversation {A} (f : CM.t → A * CM.t) :
  CM.appends f → grows (World:=World) (onConversation f).
Proof.
  intros Hf s s1. rewrite onConversation_eq. intros [= <-].
  split; [done|]. intros Hwf. by apply Hf.
Qed.

Lemma grows_ofConversation {A} (f : CM.t → A) :
  grows (World:=World) (ofConversation f).
Proof. by intros s s1 [= <-]. Qed.

(** A call leaves its record right after what was recorded before. *)
Lemma call_final {A} e (f : World → Outcome A * World) s s1 :
  final (call e f s) = Some s1 →
  trace s1 = trace s ++ [e] ∧ conversation s1 = conversation s.
Proof.
  unfold call. by destruct (f (world s)) as [[a|msg] w]; intros [= <-].
Qed.

Lemma grows_call {A} e (f : World → Outcome A * World) : grows (call e f).
Proof.
  intros s s1 H. apply call_final in H as [Ht Hc]. unfold log.
  rewrite Ht, Hc. split; [by apply prefix_app_r|done].
Qed.

Lemma grows_ofTool {A} (o : Outcome A) : grows (World:=World) (ofTool o).
Proof. intros s s1. unfold ofTool. by destruct o; intros [= <-]. Qed.

Lemma grows_emit eventName data :
  grows (World:=World) (emit eventName data).
Proof. intros s. apply grows_call. Qed.

(** What [bind m f] ends in, [m] ended in before, or [f] started from. *)
Lemma bind_final {A B} (m : M (World:=World) A)
    (f : A → M (World:=World) B) s s2 :
  (∀ a, grows (f a)) →
  final (bind m f s) = Some s2 →
  ∃ s1, final (m s) = Some s1 ∧ trace s1 `prefix_of` trace s2.
Proof.
  intros Hf. unfold bind. destruct (m s) as [a s1|e s1|]; [| |done].
  - intros H. exists s1. split; [done|]. by apply (Hf a s1 s2).
  - intros [= <-]. by exists s1.
Qed.

(** A computation that starts with a call: however it ends, the record of
    the call comes right after what was recorded before. *)
Lemma bind_call_first {A B} e (f : World → Outcome A * World)
    (k : A → M (World:=World) B) s s1 :
  (∀ a, grows (k a)) →
  final (bind (call e f) k s) = Some s1 →
  (trace s ++ [e]) `prefix_of` trace s1.
Proof.
  intros Hk H. apply bind_final in H as (sa & Hcall & Hp); [|done].
  apply call_final in Hcall as [<- _]. done.
Qed.


End Grows.

Create HintDb grows.

#[local] Hint Resolve grows_ret grows_onConversation grows_ofConversation
  grows_call grows_ofTool grows_emit
  CMFacts.appends_addSystemMessage CMFacts.appends_addUserMessage
  CMFacts.appends_addAssistantMessage CMFacts.appends_addToolRequestMessage
  CMFacts.appends_addToolResultMessage : grows.

#[local] Ltac grows_step :=
  match goal with
  | |- grows (bind _ _) => apply grows_bind; [|intros ?]
  | |- grows (tryCatch _ _) => apply grows_tryCatch; [|intros ?]
  | |- grows (match ?x with _ => _ end) => destruct x
  | |- grows (if ?x then _ else _) => destruct x
  | |- grows _ => solve [eauto with grows]
  end.

(** *** More fuel does not change a run that came to an end *)
Section Below.
Context {World : Type}.
Implicit Types (s : State (World:=World)).

Lemma below_refl {A} (m : M (World:=World) A) : below m m.
Proof. by intros s _. Qed.

Lemma below_trans {A} (m1 m2 m3 : M (World:=World) A) :
  below m1 m2 → below m2 m3 → below m1 m3.
Proof.
  intros H12 H23 s H. rewrite <- (H12 s H). apply H23. by rewrite (H12 s H).
Qed.

Lemma below_bind {A B} (m1 m2 : M (World:=World) A)
    (f1 f2 : A → M (World:=World) B) :
  below m1 m2 → (∀ a, below (f1 a) (f2 a)) →
  below (bind m1 f1) (bind m2 f2).
Proof.
  intros Hm Hf s. unfold bind. specialize (Hm s).
  destruct (m1 s) as [a s1|e s1|]; [| |done].
  - rewrite Hm by done. apply Hf.
  - by rewrite Hm.
Qed.

Lemma below_tryCatch {A} (b1 b2 : M (World:=World) A)
    (h1 h2 : string → M (World:=World) A) :
  below b1 b2 → (∀ e, below (h1 e) (h2 e)) →
  below (tryCatch b1 h1) (tryCatch b2 h2).
Proof.
  intros Hm Hh s. unfold tryCatch. specialize (Hm s).
  destruct (b1 s) as [a s1|e s1|]; [| |done].
  - by rewrite Hm.
  - rewrite Hm by done. apply Hh.
Qed.

End Below.

#[local] Ltac below_step :=
  match goal with
  | |- below (bind _ _) (bind _ _) => apply below_bind; [|intros ?]
  | |- below (tryCatch _ _) (tryCatch _ _) =>
      apply below_tryCatch; [|intros ?]
  | |- below (match ?x with _ => _ end) _ => destruct x
  | |- below (if ?x then _ else _) _ => destruct x
  | |- below ?m ?m => apply below_refl
  | |- below _ _ => assumption
  end.

(** One step through a [bind] whose first computation is known to return. *)
#[local] Ltac returns tac :=
  etrans; [eapply bind_Returned; tac|]; cbv beta iota.

Section Engine.
Context {World : Type}.
Variable config : Config World.
Implicit Types (s : State (World:=World)).
Implicit Types (self : M (World:=World) unit).

Lemma obeys_emitToolError b toolUseId name error :
  obeys (World:=World) b (emitToolError toolUseId name error).
Proof. unfold emitToolError. repeat obeys_step. Qed.

Lemma obeys_addToolResults b result :
  obeys (World:=World) b (addToolResults result).
Proof. induction result; simpl; repeat obeys_step. Qed.

Lemma obeys_needsConfirmation toolCall tool :
  obeys (World:=World) true (needsConfirmation toolCall tool).
Proof. unfold needsConfirmation. repeat obeys_step. Qed.

Lemma obeys_requestConfirmation b toolCall :
  obeys (World:=World) b (requestConfirmation toolCall).
Proof. unfold requestConfirmation. repeat obeys_step. Qed.

#[local] Hint Resolve obeys_emitToolError obeys_addToolResults
  obeys_needsConfirmation obeys_requestConfirmation obeys_weaken : obeys.

(** [executeValidatedTool] catches what the tool run throws, so it throws
    only when its continuation does. *)
Lemma obeys_executeValidatedTool b self toolUseId :
  obeys b self → obeys b (executeValidatedTool config self toolUseId).
Proof.
  intros Hself. assert (obeys true self) by (by destruct b; auto with obeys).
  unfold executeValidatedTool. repeat obeys_step.
Qed.

Lemma obeys_executeNextTool b self :
  obeys b self → obeys b (executeNextTool config self).
Proof.
  intros Hself. unfold executeNextTool. repeat obeys_step.
  all: by apply obeys_executeValidatedTool.
Qed.

Lemma obeys_validateAndProcessTools self toolCalls :
  obeys true self →
  obeys true (validateAndProcessTools config self toolCalls).
Proof.
  intros Hself. induction toolCalls as [|toolCall rest IH]; simpl.
  - auto with obeys.
  - repeat obeys_step. by apply obeys_executeValidatedTool.
Qed.

(** [sendToLLM] wraps all it does in a [try]; its [catch] only emits. *)
Lemma obeys_sendToLLM b self :
  obeys b self → obeys b (sendToLLM config self).
Proof.
  intros Hself. assert (obeys true self) by (by destruct b; auto with obeys).
  unfold sendToLLM. repeat obeys_step.
  by apply obeys_validateAndProcessTools.
Qed.

Lemma obeys_processConversationStep b self :
  obeys b self → obeys b (processConversationStep config self).
Proof.
  intros Hself. unfold processConversationStep. repeat obeys_step.
  all: by (apply obeys_sendToLLM || apply obeys_executeNextTool).
Qed.

(** On a quiet bus [processConversation] never throws. *)
Lemma obeys_processConversation fuel :
  obeys false (processConversation config fuel).
Proof.
  induction fuel as [|fuel IH]; simpl; [done|].
  by apply obeys_processConversationStep.
Qed.





(** *** The engine only adds to the record of calls *)

Lemma grows_addToolResults result :
  grows (World:=World) (addToolResults result).
Proof. induction result; simpl; repeat grows_step. Qed.

Lemma grows_emitToolError toolUseId name error :
  grows (World:=World) (emitToolError toolUseId name error).
Proof. unfold emitToolError. repeat grows_step. Qed.

Lemma grows_needsConfirmation toolCall tool :
  grows (World:=World) (needsConfirmation toolCall tool).
Proof. unfold needsConfirmation. repeat grows_step. Qed.

Lemma grows_requestConfirmation toolCall :
  grows (World:=World) (requestConfirmation toolCall).
Proof. unfold requestConfirmation. repeat grows_step. Qed.

#[local] Hint Resolve grows_addToolResults grows_emitToolError
  grows_needsConfirmation grows_requestConfirmation : grows.

Lemma grows_executeValidatedTool self toolUseId :
  grows self → grows (executeValidatedTool config self toolUseId).
Proof. intros Hself. unfold executeValidatedTool. repeat grows_step. Qed.

Lemma grows_executeNextTool self :
  grows self → grows (executeNextTool config self).
Proof.
  intros Hself. unfold executeNextTool. repeat grows_step.
  all: by apply grows_executeValidatedTool.
Qed.

Lemma grows_validateAndProcessTools self toolCalls :
  grows self → grows (validateAndProcessTools config self toolCalls).
Proof.
  intros Hself. induction toolCalls as [|toolCall rest IH]; simpl.
  - auto with grows.
  - repeat grows_step. by apply grows_executeValidatedTool.
Qed.

Lemma grows_sendToLLM self : grows self → grows (sendToLLM config self).
Proof.
  intros Hself. unfold sendToLLM. repeat grows_step.
  by apply grows_validateAndProcessTools.
Qed.

Lemma grows_processConversationStep self :
  grows self → grows (processConversationStep config self).
Proof.
  intros Hself. unfold processConversationStep. repeat grows_step.
  all: by (apply grows_sendToLLM || apply grows_executeNextTool).
Qed.

Lemma grows_processConversation fuel :
  grows (processConversation config fuel).
Proof.
  induction fuel as [|fuel IH]; simpl; [done|].
  by apply grows_processConversationStep.
Qed.



(** *** Fuel *)

Lemma below_executeValidatedTool self1 self2 toolUseId :
  below self1 self2 →
  below (executeValidatedTool config self1 toolUseId)
    (executeValidatedTool config self2 toolUseId).
Proof. intros Hself. unfold executeValidatedTool. repeat below_step. Qed.

Lemma below_executeNextTool self1 self2 :
  below self1 self2 →
  below (executeNextTool config self1) (executeNextTool config self2).
Proof.
  intros Hself. unfold executeNextTool. repeat below_step.
  by apply below_executeValidatedTool.
Qed.

Lemma below_validateAndProcessTools self1 self2 toolCalls :
  below self1 self2 →
  below (validateAndProcessTools config self1 toolCalls)
    (validateAndProcessTools config self2 toolCalls).
Proof.
  intros Hself. induction toolCalls as [|toolCall rest IH]; simpl.
  - apply below_refl.
  - repeat below_step. by apply below_executeValidatedTool.
Qed.

Lemma below_sendToLLM self1 self2 :
  below self1 self2 →
  below (sendToLLM config self1) (sendToLLM config self2).
Proof.
  intros Hself. unfold sendToLLM. repeat below_step.
  by apply below_validateAndProcessTools.
Qed.

Lemma below_processConversationStep self1 self2 :
  below self1 self2 →
  below (processConversationStep config self1)
    (processConversationStep config self2).
Proof.
  intros Hself. unfold processConversationStep. repeat below_step.
  all: by (apply below_sendToLLM || apply below_executeNextTool).
Qed.

Lemma below_processConversation_S fuel :
  below (processConversation config fuel)
    (processConversation config (S fuel)).
Proof.
  induction fuel as [|fuel IH]; [by intros s|].
  by apply below_processConversationStep.
Qed.

Lemma below_processConversation (fuel fuel' : nat) :
  (fuel ≤ fuel')%nat →
  below (processConversation config fuel) (processConversation config fuel').
Proof.
  induction 1 as [|fuel' _ IH]; [apply below_refl|].
  eapply below_trans; [exact IH|apply below_processConversation_S].
Qed.

(** A run that came to an end with some fuel comes to the same end with
    more: [run] and [handleToolConfirmation] have one result at most. *)
Lemma run_fuel_stable (fuel fuel' : nat) input :
  (fuel ≤ fuel')%nat →
  below (run config fuel input) (run config fuel' input).
Proof.
  intros Hle. unfold run. repeat below_step.
  by apply below_processConversation.
Qed.

Lemma handleToolConfirmation_fuel_stable (fuel fuel' : nat) toolUseId
    confirmed :
  (fuel ≤ fuel')%nat →
  below (handleToolConfirmation config fuel toolUseId confirmed)
    (handleToolConfirmation config fuel' toolUseId confirmed).
Proof.
  intros Hle. unfold handleToolConfirmation. repeat below_step.
  - by apply below_executeValidatedTool, below_processConversation.
  - by apply below_processConversation.
Qed.

(** *** The batch of tool calls of one model response *)




(** *** The confirmation gate *)




(** *** Resolving a confirmation *)



(** *** Every state the agent goes through *)

Lemma grows_run fuel input : grows (run config fuel input).
Proof. unfold run. repeat grows_step. apply grows_processConversation. Qed.

Lemma grows_handleToolConfirmation fuel toolUseId confirmed :
  grows (handleToolConfirmation config fuel toolUseId confirmed).
Proof.
  unfold handleToolConfirmation. repeat grows_step.
  - apply grows_executeValidatedTool, grows_processConversation.
  - apply grows_processConversation.
Qed.

Lemma wf_initialize c : CM.wf c → CM.wf (initialize config c).
Proof.
  intros Hwf. unfold initialize.
  apply (CMFacts.appends_addSystemMessage (system config)) in Hwf as [Hwf _].
  revert Hwf. generalize (CM.addSystemMessage (system config) c).2.
  induction (initialMessages config) as [|message rest IH]; intros c1 Hwf;
    [done|].
  simpl. apply IH. by apply (CMFacts.appends_addUserMessage message).
Qed.

(** The store of a reachable state is well formed. *)
Lemma reachable_wf s : reachable config s → CM.wf (conversation s).
Proof.
  induction 1 as [supply w|handlers s s1 _ IH H|fuel input s s1 _ IH H
                 |fuel toolUseId confirmed s s1 _ IH H].
  - apply wf_initialize, CMFacts.wf_constructor.
  - by injection H as <-.
  - by apply (grows_run fuel input s s1 H).
  - by apply (grows_handleToolConfirmation fuel toolUseId confirmed s s1 H).
Qed.

(** The log is append-only: a call of [run] or of [handleToolConfirmation]
    on a reachable state leaves the log it found as a prefix of the log. *)
Lemma run_appends fuel input s s1 :
  reachable config s →
  final (run config fuel input s) = Some s1 →
  log s `prefix_of` log s1.
Proof.
  intros Hs H. by apply (grows_run fuel input s s1 H), reachable_wf.
Qed.

Lemma handleToolConfirmation_appends fuel toolUseId confirmed s s1 :
  reachable config s →
  final (handleToolConfirmation config fuel toolUseId confirmed s)
  = Some s1 →
  log s `prefix_of` log s1.
Proof.
  intros Hs H.
  by apply (grows_handleToolConfirmation fuel toolUseId confirmed s s1 H),
    reachable_wf.
Qed.

End Engine.

(** *** Invariants of the engine *)
Section KeepsLaws.
Context {World : Type}.
Variable I : State (World:=World) → Prop.

Lemma keeps_ret {A} (a : A) : keeps I (ret a).
Proof. by intros s s1 HI [= <-]. Qed.

Lemma keeps_bind {A B} (m : M (World:=World) A)
    (f : A → M (World:=World) B) :
  keeps I m → (∀ a, keeps I (f a)) → keeps I (bind m f).
Proof.
  intros Hm Hf s s2 HI. unfold bind. specialize (Hm s).
  destruct (m s) as [a s1|e s1|]; simpl in *; [|by auto|done].
  apply Hf. by apply Hm.
Qed.

Lemma keeps_bind_ret {A B} (a : A) (f : A → M (World:=World) B) :
  keeps I (f a) → keeps I (bind (ret a) f).
Proof. intros Hf s s1. apply Hf. Qed.

Lemma keeps_tryCatch {A} (body : M (World:=World) A)
    (handler : string → M (World:=World) A) :
  keeps I body → (∀ e, keeps I (handler e)) →
  keeps I (tryCatch body handler).
Proof.
  intros Hm Hh s s2 HI. unfold tryCatch. specialize (Hm s).
  destruct (body s) as [a s1|e s1|]; simpl in *; [by auto| |done].
  apply Hh. by apply Hm.
Qed.

Lemma keeps_ofConversation {A} (f : CM.t → A) : keeps I (ofConversation f).
Proof. by intros s s1 HI [= <-]. Qed.

Lemma keeps_ofTool {A} (o : Outcome A) : keeps I (ofTool o).
Proof. intros s s1 HI. unfold ofTool. by destruct o; intros [= <-]. Qed.

(** A [try] that starts with a call that keeps [I] at the state it is made
    in. *)
Lemma keeps_tryCatch_call {A B} e (f : World → Outcome A * World)
    (k : A → M (World:=World) B) (h : string → M (World:=World) B) s s2 :
  (∀ s1, final (call e f s) = Some s1 → I s1) →
  (∀ a, keeps I (k a)) → (∀ msg, keeps I (h msg)) →
  final (tryCatch (bind (call e f) k) h s) = Some s2 → I s2.
Proof.
  intros Hcall Hk Hh. unfold tryCatch, bind.
  destruct (call e f s) as [a sa|msg sa|]; [| |done].
  - specialize (Hk a sa). specialize (Hcall sa eq_refl).
    destruct (k a sa) as [b sb|msg sb|]; [by auto| |done].
    apply Hh. by apply Hk.
  - apply Hh. by apply Hcall.
Qed.

End KeepsLaws.

(** What the engine keeps: every property of states that the methods of the
    conversation, the calls of the catalogue and a call of the model on the
    log of the moment keep. *)
Section EngineKeeps.
Context {World : Type}.
Variable config : Config World.
Variable I : State (World:=World) → Prop.

Hypothesis keeps_onConversation :
  ∀ A (f : CM.t → A * CM.t), CM.appends f → keeps I (onConversation f).
Hypothesis keeps_call :
  ∀ A e (f : World → Outcome A * World),
    Catalogue.t config e → keeps I (call e f).
Hypothesis keeps_invoke :
  ∀ (f : World → Outcome Response * World) s s1,
    I s → final (call (InvokeModel (log s)) f s) = Some s1 → I s1.

Lemma keeps_emit eventName data :
  Catalogue.t config (Emit eventName data) → keeps I (emit eventName data).
Proof. intros He s. by apply keeps_call. Qed.

#[local] Ltac keeps_step :=
  match goal with
  | |- keeps _ (bind (ret _) _) => apply keeps_bind_ret; cbv beta iota
  | |- keeps _ (bind _ _) => apply keeps_bind; [|intros ?]
  | |- keeps _ (tryCatch _ _) => apply keeps_tryCatch; [|intros ?]
  | |- keeps _ (match ?x with _ => _ end) => destruct x
  | |- keeps _ (if ?x then _ else _) => destruct x
  | |- keeps _ (ret _) => apply keeps_ret
  | |- keeps _ (ofConversation _) => apply keeps_ofConversation
  | |- keeps _ (ofTool _) => apply keeps_ofTool
  | |- keeps _ (onConversation _) =>
      apply keeps_onConversation; auto with grows
  | |- keeps _ (emit _ _) => apply keeps_emit; by constructor
  | |- keeps _ (call _ _) => apply keeps_call; by constructor
  | |- keeps _ _ => assumption
  end.

Lemma keeps_addToolResults result : keeps I (addToolResults result).
Proof. induction result; simpl; repeat keeps_step. Qed.

Lemma keeps_executeValidatedTool self toolUseId :
  keeps I self → keeps I (executeValidatedTool config self toolUseId).
Proof.
  intros Hself. unfold executeValidatedTool, emitToolError.
  repeat keeps_step. all: apply keeps_addToolResults.
Qed.

Lemma keeps_executeNextTool self :
  keeps I self → keeps I (executeNextTool config self).
Proof.
  intros Hself. unfold executeNextTool. repeat keeps_step.
  all: by apply keeps_executeValidatedTool.
Qed.

Lemma keeps_validateAndProcessTools self toolCalls :
  keeps I self → keeps I (validateAndProcessTools config self toolCalls).
Proof.
  intros Hself. induction toolCalls as [|toolCall rest IH]; simpl;
    [apply keeps_ret|].
  unfold emitToolError, requestConfirmation, needsConfirmation.
  destruct (acceptAll config) eqn:Hall; cbn [negb]; repeat keeps_step.
  all: by apply keeps_executeValidatedTool.
Qed.

Lemma keeps_sendToLLM self : keeps I self → keeps I (sendToLLM config self).
Proof.
  intros Hself s s2 HI.
  apply (keeps_tryCatch_call I (InvokeModel (log s))
           (invokeModel (llm config) (log s))
           (λ response,
              bind
                (match response with
                 | AssistantToolRequest toolCalls =>
                     validateAndProcessTools config self
                       (default [] toolCalls)
                 | AssistantContent content =>
                     bind (onConversation (CM.addAssistantMessage content))
                       (λ _,
                          bind (emit "assistantReceive"
                                  (AssistantReceive content))
                            (λ _, ret ()))
                 end)
                (λ _, self))
           (λ error, bind (emit "error" (LLMError error)) (λ _, ret ()))).
  - intros s1. by apply keeps_invoke.
  - intros response. repeat keeps_step.
    by apply keeps_validateAndProcessTools.
  - intros msg. repeat keeps_step.
Qed.

Lemma keeps_processConversationStep self :
  keeps I self → keeps I (processConversationStep config self).
Proof.
  intros Hself. unfold processConversationStep. repeat keeps_step.
  all: by (apply keeps_sendToLLM || apply keeps_executeNextTool).
Qed.

Lemma keeps_processConversation fuel :
  keeps I (processConversation config fuel).
Proof.
  induction fuel as [|fuel IH]; simpl; [done|].
  by apply keeps_processConversationStep.
Qed.

Lemma keeps_run fuel input : keeps I (run config fuel input).
Proof. unfold run. repeat keeps_step. apply keeps_processConversation. Qed.

(** [run] after its first step, the user message. *)
Lemma keeps_run_rest fuel input :
  keeps I
    (bind (emit "userSent" (UserSent input))
       (λ _,
          bind (processConversation config fuel)
            (λ _,
               bind (ofConversation (CM.getMessagesByType ASSISTANT))
                 (λ assistantMessages,
                    ret (match last assistantMessages with
                         | Some m => msg_text m
                         | None => ""
                         end))))).
Proof. repeat keeps_step. apply keeps_processConversation. Qed.

Lemma keeps_handleToolConfirmation fuel toolUseId confirmed :
  keeps I (handleToolConfirmation config fuel toolUseId confirmed).
Proof.
  unfold handleToolConfirmation. repeat keeps_step.
  - apply keeps_executeValidatedTool, keeps_processConversation.
  - apply keeps_processConversation.
Qed.

End EngineKeeps.

(** *** What the agent records, and what the model is shown *)
Section Recorded.
Context {World : Type}.
Variable config : Config World.
Implicit Types (s : State (World:=World)).

Lemma addedOnly_refl P s : addedOnly P (trace s) s.
Proof. exists []. by rewrite app_nil_r. Qed.

Lemma addedOnly_call {A} (P : Effect → Prop) base e
    (f : World → Outcome A * World) s s1 :
  P e → addedOnly P base s → final (call e f s) = Some s1 →
  addedOnly P base s1.
Proof.
  intros He (added & Ht & Hall) H. apply call_final in H as [Ht1 _].
  exists (added ++ [e]). rewrite Ht1, Ht, app_assoc. split; [done|].
  apply Forall_app. split; [done|]. by apply Forall_singleton.
Qed.

(** X11. Whatever the model, the tools and the listeners do, a call of [run]
    or of [handleToolConfirmation] only makes calls of the catalogue: calls
    of the model, runs of one tool call at a time, and the events
    [userSent], [assistantReceive], [toolConfirmation], [toolStart],
    [toolEnd] and [error], each with the payload of its kind. No other event
    is ever emitted; [start], that [agent.on] takes a handler for, never
    is. *)
Theorem only_the_catalogue s s1 :
  (∃ fuel input, final (run config fuel input s) = Some s1)
  ∨ (∃ fuel toolUseId confirmed,
       final (handleToolConfirmation config fuel toolUseId confirmed s)
       = Some s1) →
  addedOnly (Catalogue.record config) (trace s) s1.
Proof.
  set (I := addedOnly (Catalogue.record config) (trace s)).
  assert (Hconv : ∀ A (f : CM.t → A * CM.t),
            CM.appends f → keeps I (onConversation f)).
  { intros A f _ s0 s2 HI. rewrite onConversation_eq. by intros [= <-]. }
  assert (Hcall : ∀ A e (f : World → Outcome A * World),
            Catalogue.t config e → keeps I (call e f)).
  { intros A e f He s0 s2 HI. apply addedOnly_call; [by right|done]. }
  assert (Hinvoke : ∀ (f : World → Outcome Response * World) s0 s2,
            I s0 → final (call (InvokeModel (log s0)) f s0) = Some s2 →
            I s2).
  { intros f s0 s2 HI. apply addedOnly_call; [left; by eexists|done]. }
  intros [(fuel & input & H)|(fuel & toolUseId & confirmed & H)].
  - apply (keeps_run config I Hconv Hcall Hinvoke fuel input s s1);
      [apply addedOnly_refl|exact H].
  - apply (keeps_handleToolConfirmation config I Hconv Hcall Hinvoke
             fuel toolUseId confirmed s s1); [apply addedOnly_refl|exact H].
Qed.

(** X12. An agent created with [acceptAll] never asks for a confirmation:
    no call of [run] or of [handleToolConfirmation] emits a
    [toolConfirmation] event, whatever the names of the tools and whatever
    their [requiresAcceptance] answers. *)
Theorem accept_all_never_asks s s1 :
  acceptAll config = true →
  (∃ fuel input, final (run config fuel input s) = Some s1)
  ∨ (∃ fuel toolUseId confirmed,
       final (handleToolConfirmation config fuel toolUseId confirmed s)
       = Some s1) →
  addedOnly (λ e, ∀ data, e ≠ Emit "toolConfirmation" data) (trace s) s1.
Proof.
  intros Hall.
  set (I := addedOnly (λ e, ∀ data, e ≠ Emit "toolConfirmation" data)
              (trace s)).
  assert (Hconv : ∀ A (f : CM.t → A * CM.t),
            CM.appends f → keeps I (onConversation f)).
  { intros A f _ s0 s2 HI. rewrite onConversation_eq. by intros [= <-]. }
  assert (Hcall : ∀ A e (f : World → Outcome A * World),
            Catalogue.t config e → keeps I (call e f)).
  { intros A e f He s0 s2 HI. apply addedOnly_call; [|done].
    intros data. destruct He; try done. congruence. }
  assert (Hinvoke : ∀ (f : World → Outcome Response * World) s0 s2,
            I s0 → final (call (InvokeModel (log s0)) f s0) = Some s2 →
            I s2).
  { intros f s0 s2 HI. by apply addedOnly_call. }
  intros [(fuel & input & H)|(fuel & toolUseId & confirmed & H)].
  - apply (keeps_run config I Hconv Hcall Hinvoke fuel input s s1);
      [apply addedOnly_refl|exact H].
  - apply (keeps_handleToolConfirmation config I Hconv Hcall Hinvoke
             fuel toolUseId confirmed s s1); [apply addedOnly_refl|exact H].
Qed.

(** X13. The model is always shown the whole log of the moment. In a call
    of [run] on a well-formed store, every call of the model is given a log
    that starts with the log [run] found followed by the new user message,
    and that is a prefix of the log [run] leaves; the store stays well
    formed. *)
Theorem model_sees_whole_log fuel input s s1 :
  CM.wf (conversation s) →
  final (run config fuel input s) = Some s1 →
  modelSaw (log s ++ [UserMessage (CM.uuidSupply (conversation s)) input])
    (trace s) s1.
Proof.
  intros Hwf.
  set (from := log s ++ [UserMessage (CM.uuidSupply (conversation s)) input]).
  set (I := modelSaw from (trace s)).
  assert (Hconv : ∀ A (f : CM.t → A * CM.t),
            CM.appends f → keeps I (onConversation f)).
  { intros A f Hf s0 s2 (Hwf0 & Hfrom & added & Ht & Hall).
    rewrite onConversation_eq. intros [= <-].
    destruct (Hf _ Hwf0) as [Hwf2 Hp]. split_and!; [done|by etrans|].
    exists added. split; [done|].
    eapply Forall_impl; [exact Hall|]. intros [messages| |]; try done.
    intros [H1 H2]. split; [done|]. by etrans. }
  assert (Hcall : ∀ A e (f : World → Outcome A * World),
            Catalogue.t config e → keeps I (call e f)).
  { intros A e f He s0 s2 (Hwf0 & Hfrom & Hadded) H.
    pose proof (call_final e f s0 s2 H) as [_ Hc].
    unfold I, modelSaw, log. rewrite Hc. split_and!; [done..|].
    eapply addedOnly_call; [|exact Hadded|exact H]. by destruct He. }
  assert (Hinvoke : ∀ (f : World → Outcome Response * World) s0 s2,
            I s0 → final (call (InvokeModel (log s0)) f s0) = Some s2 →
            I s2).
  { intros f s0 s2 (Hwf0 & Hfrom & Hadded) H.
    pose proof (call_final _ f s0 s2 H) as [_ Hc].
    unfold I, modelSaw, log. rewrite Hc. split_and!; [done..|].
    eapply addedOnly_call; [|exact Hadded|exact H]. by split. }
  unfold run. unfold bind at 1. rewrite onConversation_eq.
  apply (keeps_run_rest config I Hconv Hcall Hinvoke fuel input).
  destruct (CMFacts.addUserMessage_spec input _ Hwf) as [Hwf0 Hlog0].
  split_and!; [done| |].
  - unfold from, log. cbn [conversation set_conversation snd].
    by rewrite Hlog0.
  - exists []. split; [|done]. cbn [trace set_conversation].
    by rewrite app_nil_r.
Qed.

End Recorded.

(** *** The paths through the engine, one step at a time *)
Section Steps.
Context {World : Type}.
Implicit Types (s : State (World:=World)).

Lemma stands_here s :
  CM.wf (conversation s) →
  stands (eventBus s) (log s) (CM.uuidSupply (conversation s)) (trace s) s.
Proof. by intros Hwf. Qed.

(** A method that adds a message. *)
Lemma step_add a bus messages supply calls s :
  stands bus messages supply calls s →
  ∃ s1,
    onConversation (Append.call a) s = Returned supply s1
    ∧ stands bus (messages ++ [Append.message a supply]) (S supply) calls s1.
Proof.
  intros (Hbus & Hwf & Hlog & Hid & Ht).
  destruct (CMMore.call_log a _ Hwf) as (Hwf1 & Hlog1).
  assert (Hr : (Append.call a (conversation s)).1 = supply).
  { rewrite CMMore.call_eq. simpl. by rewrite CMMore.message_id. }
  eexists. split.
  - rewrite onConversation_eq, Hr. reflexivity.
  - split_and!; [done|done| | |done].
    + unfold log in *. cbn [conversation set_conversation].
      by rewrite Hlog1, Hlog, Hid.
    + cbn [conversation set_conversation]. rewrite CMMore.call_eq.
      simpl. by rewrite Hid.
Qed.

(** An event, on a bus whose listeners do not throw. *)
Lemma step_emit eventName data bus messages supply calls s :
  EventBus.quiet bus →
  stands bus messages supply calls s →
  ∃ vs s1,
    emit eventName data s = Returned vs s1
    ∧ stands bus messages supply (calls ++ [Emit eventName data]) s1.
Proof.
  intros Hq (Hbus & Hwf & Hlog & Hid & Ht). subst bus.
  destruct (emit_returns eventName data s Hq) as (vs & w & Hemit).
  exists vs. eexists. split; [exact Hemit|].
  split_and!; try done. simpl. by rewrite Ht.
Qed.

(** A call on the LLM service. *)
Lemma step_call {A} e (f : World → Outcome A * World) bus messages supply
    calls s :
  stands bus messages supply calls s →
  match call e f s with
  | Returned _ s1 | Threw _ s1 =>
      stands bus messages supply (calls ++ [e]) s1
  | OutOfFuel => False
  end.
Proof.
  intros (Hbus & Hwf & Hlog & Hid & Ht). unfold call.
  destruct (f (world s)) as [[a|msg] w]; split_and!; try done.
  all: simpl; by rewrite Ht.
Qed.

End Steps.

(** *** More on the agent *)
Section Paths.
Context {World : Type}.
Variable config : Config World.
Implicit Types (s : State (World:=World)).
Implicit Types (self : M (World:=World) unit).

Lemma initialUsers_cons supply message rest :
  initialUsers supply (message :: rest)
  = UserMessage supply message :: initialUsers (S supply) rest.
Proof.
  unfold initialUsers. rewrite imap_cons, Nat.add_0_r. f_equal.
  apply imap_ext. intros i x _. simpl. f_equal. lia.
Qed.

Lemma initialize_users l c :
  CM.wf c →
  CM.wf (foldl (λ c message, (CM.addUserMessage message c).2) c l)
  ∧ CM.getAllMessages
      (foldl (λ c message, (CM.addUserMessage message c).2) c l)
    = CM.getAllMessages c ++ initialUsers (CM.uuidSupply c) l.
Proof.
  revert c. induction l as [|message rest IH]; intros c Hwf.
  - simpl. by rewrite app_nil_r.
  - cbn [foldl].
    destruct (CMFacts.addUserMessage_spec message c Hwf) as [Hwf1 Hlog1].
    destruct (IH _ Hwf1) as [Hwf2 Hlog2]. split; [done|].
    rewrite Hlog2, Hlog1, <- app_assoc. by rewrite initialUsers_cons.
Qed.

(** X14. [createAgent] leaves a log made of the system message followed by
    one user message for each initial message, in their order; it has called
    neither the model nor any listener, and no listener is subscribed. The
    next action is to wait for the user when there is no initial message,
    and to invoke the model when there is one: the initial messages are not
    sent before the first [run]. *)
Theorem createAgent_log supply w :
  let s := createAgent config supply w in
  log s
  = SystemMessage supply (system config)
    :: initialUsers (S supply) (initialMessages config)
  ∧ CM.wf (conversation s)
  ∧ trace s = []
  ∧ world s = w
  ∧ (∀ eventName data w1,
       EventBus.emit eventName data (eventBus s) w1 = (Ok [], w1))
  ∧ CM.getNextAction (conversation s)
    = match initialMessages config with
      | [] => WAIT_FOR_LOCAL_USER_INPUT
      | _ => SEND_USER_INPUT_TO_LLM
      end.
Proof.
  intros s.
  destruct (CMFacts.addSystemMessage_spec (system config)
              (CM.constructor supply) (CMFacts.wf_constructor supply))
    as [Hwf0 Hlog0].
  destruct (initialize_users (initialMessages config) _ Hwf0)
    as [Hwf1 Hlog1].
  assert (Hlog : log s
                 = SystemMessage supply (system config)
                   :: initialUsers (S supply) (initialMessages config)).
  { unfold s, log, createAgent, initialize. cbn [conversation].
    rewrite Hlog1, Hlog0. reflexivity. }
  split_and!; [done|done|done|done| |].
  - intros eventName data w1. by rewrite emit_mapCallbacks.
  - unfold CM.getNextAction.
    rewrite CMFacts.getLastMessage_last by done. fold (log s). rewrite Hlog.
    destruct (initialMessages config) as [|message rest _] using rev_ind;
      [done|].
    unfold initialUsers. rewrite imap_app. simpl.
    rewrite app_comm_cons, last_snoc. by destruct rest.
Qed.

(** X15. [run] records the input before anything else: however the call
    ends, the log it leaves starts with the log it found followed by the
    user message, and the first call made is the [userSent] event. *)
Theorem run_records_input_first fuel input s s1 :
  CM.wf (conversation s) →
  final (run config fuel input s) = Some s1 →
  (log s ++ [UserMessage (CM.uuidSupply (conversation s)) input])
    `prefix_of` log s1
  ∧ (trace s ++ [Emit "userSent" (UserSent input)]) `prefix_of` trace s1.
Proof.
  intros Hwf. unfold run. unfold bind at 1. rewrite onConversation_eq.
  set (s0 := set_conversation _ s).
  destruct (CMFacts.addUserMessage_spec input _ Hwf) as [Hwf0 Hlog0].
  intros H. split.
  - assert (Hg : grows
                   (bind (emit "userSent" (UserSent input))
                      (λ _,
                         bind (processConversation config fuel)
                           (λ _,
                              bind
                                (ofConversation
                                   (CM.getMessagesByType ASSISTANT))
                                (λ assistantMessages,
                                   ret (match last assistantMessages with
                                        | Some m => msg_text m
                                        | None => ""
                                        end)))))).
    { repeat grows_step. apply grows_processConversation. }
    destruct (Hg s0 s1 H) as [_ Hl]. destruct (Hl Hwf0) as [_ Hp].
    unfold log in *. by rewrite <- Hlog0.
  - revert H.
    apply (bind_call_first (Emit "userSent" (UserSent input))
             (EventBus.emit "userSent" (UserSent input) (eventBus s0))).
    intros _. repeat grows_step. apply grows_processConversation.
Qed.

Lemma obeys_run fuel input : obeys false (run config fuel input).
Proof. unfold run. repeat obeys_step. apply obeys_processConversation. Qed.

(** X16. [shutdown] removes every listener and touches nothing else: the
    log and the record of calls are as they were, no [emit] calls anybody
    any more, and from then on [run] cannot throw, whatever listeners were
    subscribed before. *)
Theorem shutdown_silences s :
  ∃ s1,
    shutdown s = Returned () s1
    ∧ conversation s1 = conversation s
    ∧ trace s1 = trace s
    ∧ world s1 = world s
    ∧ (∀ eventName data w,
         EventBus.emit eventName data (eventBus s1) w = (Ok [], w))
    ∧ ∀ fuel input e s2, run config fuel input s1 ≠ Threw e s2.
Proof.
  eexists. split; [reflexivity|]. split_and!; try done.
  intros fuel input e s2 H.
  pose proof (obeys_run fuel input
                (set_eventBus (EventBus.clearAllListeners (eventBus s)) s))
    as Ho.
  rewrite H in Ho. by destruct Ho; [apply quiet_constructor|].
Qed.

End Paths.

(** *** Subscribing through the agent *)
Section AgentOn.
Context {World : Type}.
Implicit Types (s : State (World:=World)).
Implicit Types
  (handlers : gmap string (EventBus.Callback World EventData HandlerValue)).
Implicit Types (bus : EventBus.t World EventData HandlerValue).

Lemma subscribe_lookup handlers bus entry eventName :
  EventBus.listeners (subscribe handlers bus entry) !! eventName
  = if decide (entry.2 = eventName)
    then match handlers !! entry.1 with
         | Some handler =>
             Some (default [] (EventBus.listeners bus !! eventName)
                   ++ [handler])
         | None => EventBus.listeners bus !! eventName
         end
    else EventBus.listeners bus !! eventName.
Proof.
  unfold subscribe. destruct (handlers !! entry.1) as [handler|].
  - case_decide as He.
    + subst eventName. apply on_lookup.
    + by apply on_lookup_ne.
  - by case_decide.
Qed.

Lemma subscribe_all handlers entries bus :
  NoDup entries.*2 →
  (∀ entry, entry ∈ entries →
     EventBus.listeners (foldl (subscribe handlers) bus entries) !! entry.2
     = match handlers !! entry.1 with
       | Some handler =>
           Some (default [] (EventBus.listeners bus !! entry.2)
                 ++ [handler])
       | None => EventBus.listeners bus !! entry.2
       end)
  ∧ (∀ other, other ∉ entries.*2 →
       EventBus.listeners (foldl (subscribe handlers) bus entries) !! other
       = EventBus.listeners bus !! other).
Proof.
  revert bus. induction entries as [|entry0 entries IH]; intros bus Hnd.
  - split; [by intros entry Hin%elem_of_nil|done].
  - rewrite fmap_cons in Hnd. apply NoDup_cons in Hnd as [Hnotin Hnd].
    cbn [foldl]. destruct (IH (subscribe handlers bus entry0) Hnd)
      as [IH1 IH2].
    split.
    + intros entry [->|Hin]%elem_of_cons.
      * rewrite IH2 by done. rewrite subscribe_lookup.
        by rewrite decide_True.
      * rewrite IH1 by done. rewrite subscribe_lookup.
        rewrite decide_False; [done|]. intros Heq. apply Hnotin.
        rewrite Heq. by apply list_elem_of_fmap_2.
    + intros other Hother. rewrite fmap_cons in Hother.
      apply not_elem_of_cons in Hother as [Hne Hother].
      rewrite IH2 by done. rewrite subscribe_lookup.
      by rewrite decide_False.
Qed.

(** X17. [agent.on(handlers)] subscribes, for each of the eleven members it
    knows, the handler found under that member to the event of that member
    ([fileNewContent] to [file:newContentSuggestion], [tokenUsage] to
    [llm:tokenUsage], and so on), after the listeners the event has
    already; a member that is missing subscribes nothing, every other event
    keeps its listeners, and the log, the world and the record of calls are
    not touched. *)
Theorem on_subscribes handlers s :
  ∃ s1,
    on handlers s = Returned () s1
    ∧ conversation s1 = conversation s
    ∧ world s1 = world s
    ∧ trace s1 = trace s
    ∧ (∀ member eventName, (member, eventName) ∈ handlerEvents →
         EventBus.listeners (eventBus s1) !! eventName
         = match handlers !! member with
           | Some handler =>
               Some (default []
                       (EventBus.listeners (eventBus s) !! eventName)
                     ++ [handler])
           | None => EventBus.listeners (eventBus s) !! eventName
           end)
    ∧ (∀ other, other ∉ handlerEvents.*2 →
         EventBus.listeners (eventBus s1) !! other
         = EventBus.listeners (eventBus s) !! other).
Proof.
  eexists. split; [reflexivity|]. split_and!; try done.
  - intros member eventName Hin.
    assert (Hnd : NoDup handlerEvents.*2)
      by (apply (bool_decide_unpack _); vm_compute; exact I).
    destruct (subscribe_all handlers handlerEvents (eventBus s) Hnd)
      as [H1 _].
    exact (H1 (member, eventName) Hin).
  - intros other Hother.
    assert (Hnd : NoDup handlerEvents.*2)
      by (apply (bool_decide_unpack _); vm_compute; exact I).
    destruct (subscribe_all handlers handlerEvents (eventBus s) Hnd)
      as [_ H2].
    exact (H2 other Hother).
Qed.

End AgentOn.

(** *** Whole turns *)
Section Turns.
Context {World : Type}.
Variable config : Config World.
Implicit Types (s : State (World:=World)).
Implicit Types (self : M (World:=World) unit).
Implicit Types (bus : EventBus.t World EventData HandlerValue).

Lemma step_call_ok {A} e (f : World → Outcome A * World) (a : A) w1 bus
    messages supply calls s :
  stands bus messages supply calls s →
  f (world s) = (Ok a, w1) →
  ∃ s1, call e f s = Returned a s1
        ∧ stands bus messages supply (calls ++ [e]) s1.
Proof.
  intros Hs Hf. pose proof (step_call e f _ _ _ _ s Hs) as H.
  unfold call in *. rewrite Hf in *. eauto.
Qed.


Lemma tryCatch_Returned {A} (body : M (World:=World) A) h s a s1 :
  body s = Returned a s1 → tryCatch body h s = Returned a s1.
Proof. intros H. unfold tryCatch. by rewrite H. Qed.

(** On a bus whose listeners do not throw, a continuation that obeys does
    not reach the [catch]. *)
Lemma tryCatch_obeys self h bus messages supply calls s :
  EventBus.quiet bus → obeys false self →
  stands bus messages supply calls s →
  tryCatch self h s = self s.
Proof.
  intros Hq Hself (Hbus & _). unfold tryCatch.
  specialize (Hself s). rewrite Hbus in Hself. specialize (Hself Hq).
  by destruct (self s) as [a s1|e s1|]; [|destruct Hself|].
Qed.

(** The next action, read off the last message when it is not [info]. *)
Lemma getNextAction_last c l m :
  CM.wf c → CM.getAllMessages c = l ++ [m] → msg_type m ≠ INFO →
  CM.getNextAction c = CM.getNextActionForType (msg_type m).
Proof.
  intros Hwf Hlog Hm. unfold CM.getNextAction.
  rewrite CMFacts.getLastMessage_last by done. rewrite Hlog, last_snoc.
  by destruct (msg_type m).
Qed.

Lemma processConversation_last fuel bus l m supply calls s :
  stands bus (l ++ [m]) supply calls s → msg_type m ≠ INFO →
  processConversation config (S fuel) s
  = match CM.getNextActionForType (msg_type m) with
    | SEND_USER_INPUT_TO_LLM | SEND_TOOL_RESULT_TO_LLM =>
        sendToLLM config (processConversation config fuel) s
    | EXECUTE_LOCAL_TOOL =>
        executeNextTool config (processConversation config fuel) s
    | WAIT_FOR_LOCAL_USER_INPUT => Returned () s
    end.
Proof.
  intros (_ & Hwf & Hlog & _) Hm. cbn [processConversation].
  unfold processConversationStep. returns ltac:(reflexivity).
  rewrite (getNextAction_last _ l m) by done.
  by destruct (CM.getNextActionForType (msg_type m)).
Qed.

(** [sendToLLM] when the model answers with plain content. *)
Lemma sendToLLM_content self content bus messages supply calls s :
  EventBus.quiet bus →
  stands bus messages supply calls s →
  (∀ w, ∃ w1,
     invokeModel (llm config) messages w
     = (Ok (AssistantContent content), w1)) →
  ∃ s1,
    stands bus (messages ++ [AssistantMessage supply content]) (S supply)
      (calls ++ [InvokeModel messages;
                 Emit "assistantReceive" (AssistantReceive content)]) s1
    ∧ sendToLLM config self s
      = tryCatch self (λ error, emit "error" (LLMError error);; ret ()) s1.
Proof.
  intros Hq Hs Hmodel.
  assert (Hlog : log s = messages) by apply Hs.
  destruct (Hmodel (world s)) as [w1 Hw].
  destruct (step_call_ok (InvokeModel messages)
              (invokeModel (llm config) messages) _ _ _ _ _ _ s Hs Hw)
    as (s1 & Hcall & Hs1).
  destruct (step_add (Append.Assistant content) _ _ _ _ s1 Hs1)
    as (s2 & Hadd & Hs2).
  destruct (step_emit "assistantReceive" (AssistantReceive content)
              _ _ _ _ s2 Hq Hs2) as (vs & s3 & Hemit & Hs3).
  exists s3. split.
  - rewrite <- !app_assoc in Hs3. exact Hs3.
  - unfold sendToLLM, tryCatch.
    erewrite bind_Returned by reflexivity. fold (log s). rewrite Hlog.
    erewrite bind_Returned by exact Hcall. cbv beta iota.
    erewrite bind_Returned.
    2:{ erewrite bind_Returned by exact Hadd.
        erewrite bind_Returned by exact Hemit. reflexivity. }
    reflexivity.
Qed.

(** X18. A plain answer: when the model answers the log with the new user
    message by plain content, and no listener throws, [run] returns that
    content after one call of the model; the log has grown by the user
    message and the assistant message, and the calls made are the
    [userSent] event, the call of the model and the [assistantReceive]
    event. *)
Theorem run_plain_answer fuel input content s :
  EventBus.quiet (eventBus s) →
  CM.wf (conversation s) →
  let asked :=
    log s ++ [UserMessage (CM.uuidSupply (conversation s)) input] in
  (∀ w, ∃ w1,
     invokeModel (llm config) asked w
     = (Ok (AssistantContent content), w1)) →
  ∃ s1,
    run config (S (S fuel)) input s = Returned content s1
    ∧ stands (eventBus s)
        (asked
         ++ [AssistantMessage (S (CM.uuidSupply (conversation s))) content])
        (S (S (CM.uuidSupply (conversation s))))
        (trace s ++ [Emit "userSent" (UserSent input);
                     InvokeModel asked;
                     Emit "assistantReceive" (AssistantReceive content)])
        s1.
Proof.
  intros Hq Hwf asked Hmodel.
  destruct (step_add (Append.User input) _ _ _ _ s (stands_here s Hwf))
    as (s1 & Hadd & Hs1).
  destruct (step_emit "userSent" (UserSent input) _ _ _ _ s1 Hq Hs1)
    as (vs & s2 & Hemit & Hs2).
  destruct (sendToLLM_content (processConversation config (S fuel)) content
              _ _ _ _ s2 Hq Hs2 Hmodel) as (s3 & Hs3 & Hsend).
  exists s3. split.
  - unfold run. returns ltac:(exact Hadd). returns ltac:(exact Hemit).
    returns ltac:(rewrite (processConversation_last _ _ _ _ _ _ _ Hs2)
                    by done;
                  cbn [msg_type Append.message CM.getNextActionForType];
                  rewrite Hsend;
                  apply tryCatch_Returned;
                  by rewrite (processConversation_last _ _ _ _ _ _ _ Hs3)).
    returns ltac:(reflexivity). unfold ret. f_equal.
    assert (Hlog : log s3
                   = asked ++ [AssistantMessage
                                 (S (CM.uuidSupply (conversation s)))
                                 content]) by apply Hs3.
    unfold CM.getMessagesByType. fold (log s3). rewrite Hlog.
    rewrite List.filter_app. simpl. by rewrite last_snoc.
  - destruct Hs3 as (H1 & H2 & H3 & H4 & H5).
    split_and!; [done|done|exact H3|done|].
    rewrite H5. by rewrite <- !app_assoc.
Qed.

(** *** Running a tool *)

Lemma tryCatch_bind_Returned {A B} (m : M (World:=World) A)
    (f : A → M (World:=World) B) h s a s1 :
  m s = Returned a s1 → tryCatch (bind m f) h s = tryCatch (f a) h s1.
Proof. intros H. unfold tryCatch, bind. by rewrite H. Qed.


Lemma find_first {A} (p : A → bool) pre x post :
  Forall (λ y, p y = false) pre → p x = true →
  List.find p (pre ++ x :: post) = Some x.
Proof.
  intros Hpre Hx. induction Hpre as [|y pre Hy _ IH]; simpl.
  - by rewrite Hx.
  - by rewrite Hy.
Qed.

Lemma find_nothing {A} (p : A → bool) l :
  Forall (λ y, p y = false) l → List.find p l = None.
Proof. induction 1 as [|y l Hy _ IH]; simpl; [done|by rewrite Hy]. Qed.

Lemma resultMessages_cons supply res rest :
  resultMessages supply (res :: rest)
  = ToolResultMessage supply (res_toolUseId res)
      (CM.toolResultOf (res_toolUseId res) (res_content res)
         (content_error (res_content res)))
      (content_error (res_content res))
    :: resultMessages (S supply) rest.
Proof.
  unfold resultMessages. rewrite imap_cons, Nat.add_0_r. f_equal.
  apply imap_ext. intros i x _. simpl. f_equal. lia.
Qed.

Lemma addToolResults_stands result bus messages supply calls s :
  stands bus messages supply calls s →
  ∃ s1,
    addToolResults result s = Returned () s1
    ∧ stands bus (messages ++ resultMessages supply result)
        (supply + length result) calls s1.
Proof.
  revert messages supply s.
  induction result as [|res rest IH]; intros messages supply s Hs.
  - exists s. split; [done|]. simpl. by rewrite app_nil_r, Nat.add_0_r.
  - destruct (step_add (Append.ToolResult (res_toolUseId res)
                          (res_content res)
                          (content_error (res_content res)))
                _ _ _ _ s Hs) as (s1 & Hadd & Hs1).
    destruct (IH _ _ s1 Hs1) as (s2 & Hrest & Hs2).
    exists s2. split.
    + cbn [addToolResults]. returns ltac:(exact Hadd). exact Hrest.
    + rewrite resultMessages_cons. cbn [length].
      rewrite Nat.add_succ_r. by rewrite <- app_assoc in Hs2.
Qed.

(** [executeValidatedTool] up to the call of the LLM service. *)
Lemma executeValidatedTool_found self toolUseId id0 toolUse toolName pre post
    bus supply calls s :
  EventBus.quiet bus →
  stands bus (pre ++ ToolRequestMessage id0 toolUse toolName toolUseId :: post)
    supply calls s →
  Forall (λ m, requests toolUseId m = false) pre →
  ∃ s1,
    stands bus
      (pre ++ ToolRequestMessage id0 toolUse toolName toolUseId :: post)
      supply
      (calls ++ [Emit "toolStart"
                   (ToolStart toolUseId toolName (tu_input toolUse))]) s1
    ∧ executeValidatedTool config self toolUseId s
      = tryCatch
          (bind (call (ProcessToolCalls [toolUse])
                   (processToolCalls (llm config) [toolUse]))
             (λ result,
                emit "toolEnd" (ToolEnd toolUseId toolName result 0);;
                addToolResults result;;
                self))
          (λ message,
             emitToolError toolUseId None (Some message);;
             onConversation
               (CM.addToolResultMessage toolUseId
                  (ContentObject (Some message) "") (Some message));;
             self) s1.
Proof.
  intros Hq Hs Hpre.
  assert (Hlog : log s
                 = pre ++ ToolRequestMessage id0 toolUse toolName toolUseId
                   :: post) by apply Hs.
  destruct (step_emit "toolStart"
              (ToolStart toolUseId toolName (tu_input toolUse))
              _ _ _ _ s Hq Hs) as (vs & s1 & Hemit & Hs1).
  exists s1. split; [done|]. unfold executeValidatedTool.
  returns ltac:(reflexivity). fold (log s). rewrite Hlog.
  rewrite (find_first (requests toolUseId)); [|done|].
  - returns ltac:(exact Hemit). reflexivity.
  - unfold requests. simpl. by rewrite !bool_decide_eq_true_2.
Qed.

(** X19. A tool run that succeeds. For the first tool request of the log
    with [toolUseId], when [llm.processToolCalls] resolves and no listener
    throws, [executeValidatedTool] emits [toolStart], has the service run
    the one tool call of the request, emits [toolEnd], appends one tool
    result for each element of what the service resolved to, each under the
    [toolUseId] the service gave and marked as an error exactly when its
    content has a non-empty [error], and goes on with
    [processConversation]. *)
Theorem tool_run_succeeds self toolUseId id0 toolUse toolName pre post
    result s :
  EventBus.quiet (eventBus s) →
  CM.wf (conversation s) →
  obeys false self →
  log s = pre ++ ToolRequestMessage id0 toolUse toolName toolUseId :: post →
  Forall (λ m, requests toolUseId m = false) pre →
  (∀ w, ∃ w1,
     processToolCalls (llm config) [toolUse] w = (Ok result, w1)) →
  ∃ s1,
    executeValidatedTool config self toolUseId s = self s1
    ∧ stands (eventBus s)
        (log s ++ resultMessages (CM.uuidSupply (conversation s)) result)
        (CM.uuidSupply (conversation s) + length result)
        (trace s
         ++ [Emit "toolStart"
               (ToolStart toolUseId toolName (tu_input toolUse));
             ProcessToolCalls [toolUse];
             Emit "toolEnd" (ToolEnd toolUseId toolName result 0)]) s1.
Proof.
  intros Hq Hwf Hself Hlog Hpre Hrun.
  pose proof (stands_here s Hwf) as Hs. rewrite Hlog in Hs.
  destruct (executeValidatedTool_found self _ _ _ _ _ _ _ _ _ s Hq Hs Hpre)
    as (s1 & Hs1 & Hexec).
  destruct (Hrun (world s1)) as [w1 Hw].
  destruct (step_call_ok (ProcessToolCalls [toolUse])
              (processToolCalls (llm config) [toolUse])
              _ _ _ _ _ _ s1 Hs1 Hw) as (s2 & Hcall & Hs2).
  destruct (step_emit "toolEnd" (ToolEnd toolUseId toolName result 0)
              _ _ _ _ s2 Hq Hs2) as (vs & s3 & Hemit & Hs3).
  destruct (addToolResults_stands result _ _ _ _ s3 Hs3)
    as (s4 & Hadd & Hs4).
  exists s4. split.
  - rewrite Hexec.
    rewrite (tryCatch_bind_Returned _ _ _ _ _ _ Hcall).
    rewrite (tryCatch_bind_Returned _ _ _ _ _ _ Hemit).
    rewrite (tryCatch_bind_Returned _ _ _ _ _ _ Hadd).
    by eapply tryCatch_obeys.
  - rewrite Hlog. destruct Hs4 as (H1 & H2 & H3 & H4 & H5).
    split_and!; [done|done|exact H3|done|].
    rewrite H5. by rewrite <- !app_assoc.
Qed.


(** X21. [executeNextTool] runs the earliest tool request that has no tool
    result: when every message before a tool request is answered or is no
    tool request, and no tool result of the log has the [toolUseId] of the
    request, it is [executeValidatedTool] of that [toolUseId]; and when
    every tool request of the log is answered it returns without doing
    anything. *)
Theorem executeNextTool_earliest self s pre rest :
  log s = pre ++ rest →
  Forall (answeredIn (log s)) pre →
  match rest with
  | [] => executeNextTool config self s = Returned () s
  | request :: _ =>
      ∀ toolUseId,
        msg_type request = TOOL_REQUEST →
        msg_toolUseId request = Some toolUseId →
        Forall (λ m, msg_type m = TOOL_RESULT →
                     msg_toolUseId m ≠ Some toolUseId) (log s) →
        executeNextTool config self s
        = executeValidatedTool config self toolUseId s
  end.
Proof.
  intros Hlog Hpre. unfold executeNextTool.
  set (p := λ msg,
         bool_decide (msg_type msg = TOOL_REQUEST)
         && negb (existsb
                    (λ m, bool_decide (msg_type m = TOOL_RESULT)
                          && bool_decide
                               (msg_toolUseId m = msg_toolUseId msg))
                    (log s))).
  assert (Hanswered : Forall (λ y, p y = false) pre).
  { eapply Forall_impl; [exact Hpre|]. intros y Hy. unfold p.
    destruct (decide (msg_type y = TOOL_REQUEST)) as [Ht|Ht].
    - destruct (Hy Ht) as (m & Hin & Hm & Hid).
      rewrite bool_decide_eq_true_2 by done. simpl.
      apply negb_false_iff, existsb_exists. exists m.
      split; [by apply list_elem_of_In|].
      by rewrite !bool_decide_eq_true_2.
    - by rewrite bool_decide_eq_false_2. }
  destruct rest as [|request rest].
  - rewrite app_nil_r in Hlog.
    assert (Hfind : List.find p (log s) = None).
    { rewrite Hlog. by apply find_nothing. }
    returns ltac:(reflexivity). unfold p, log in Hfind. by rewrite Hfind.
  - intros toolUseId Htype Hid Hnone.
    assert (Hfind : List.find p (log s) = Some request).
    { rewrite Hlog. apply find_first; [done|].
      unfold p. rewrite bool_decide_eq_true_2 by done. simpl.
      apply negb_true_iff. apply not_true_is_false. intros Hex.
      apply existsb_exists in Hex as (m & Hin & Hm).
      apply andb_prop in Hm as [Hm1 Hm2].
      apply bool_decide_eq_true in Hm1, Hm2.
      rewrite Forall_forall in Hnone. apply list_elem_of_In in Hin.
      apply (Hnone m Hin Hm1). by rewrite Hm2. }
    returns ltac:(reflexivity). unfold p, log in Hfind.
    by rewrite Hfind, Hid.
Qed.

End Turns.

(** *** A tool round trip *)
Section RoundTrip.
Context {World : Type}.
Variable config : Config World.
Implicit Types (s : State (World:=World)).
Implicit Types (self : M (World:=World) unit).
Implicit Types (bus : EventBus.t World EventData HandlerValue).

Lemma resultMessages_snoc supply result res :
  resultMessages supply (result ++ [res])
  = resultMessages supply result
    ++ [ToolResultMessage (supply + length result) (res_toolUseId res)
          (CM.toolResultOf (res_toolUseId res) (res_content res)
             (content_error (res_content res)))
          (content_error (res_content res))].
Proof.
  unfold resultMessages. rewrite imap_app. simpl.
  by rewrite Nat.add_0_r.
Qed.

(** [executeValidatedTool] when the service resolves. *)
Lemma executeValidatedTool_runs self toolUseId id0 toolUse toolName pre post
    result bus supply calls s :
  EventBus.quiet bus →
  stands bus (pre ++ ToolRequestMessage id0 toolUse toolName toolUseId :: post)
    supply calls s →
  Forall (λ m, requests toolUseId m = false) pre →
  (∀ w, ∃ w1,
     processToolCalls (llm config) [toolUse] w = (Ok result, w1)) →
  ∃ s1 h,
    stands bus
      ((pre ++ ToolRequestMessage id0 toolUse toolName toolUseId :: post)
       ++ resultMessages supply result)
      (supply + length result)
      (calls ++ [Emit "toolStart"
                   (ToolStart toolUseId toolName (tu_input toolUse));
                 ProcessToolCalls [toolUse];
                 Emit "toolEnd" (ToolEnd toolUseId toolName result 0)]) s1
    ∧ executeValidatedTool config self toolUseId s = tryCatch self h s1.
Proof.
  intros Hq Hs Hpre Hrun.
  destruct (executeValidatedTool_found config self _ _ _ _ _ _ _ _ _ s
              Hq Hs Hpre) as (s1 & Hs1 & Hexec).
  destruct (Hrun (world s1)) as [w1 Hw].
  destruct (step_call_ok (ProcessToolCalls [toolUse])
              (processToolCalls (llm config) [toolUse])
              _ _ _ _ _ _ s1 Hs1 Hw) as (s2 & Hcall & Hs2).
  destruct (step_emit "toolEnd" (ToolEnd toolUseId toolName result 0)
              _ _ _ _ s2 Hq Hs2) as (vs & s3 & Hemit & Hs3).
  destruct (addToolResults_stands result _ _ _ _ s3 Hs3)
    as (s4 & Hadd & Hs4).
  exists s4. eexists. split.
  - destruct Hs4 as (H1 & H2 & H3 & H4 & H5).
    split_and!; [done|done|exact H3|done|].
    rewrite H5. by rewrite <- !app_assoc.
  - rewrite Hexec.
    rewrite (tryCatch_bind_Returned _ _ _ _ _ _ Hcall).
    rewrite (tryCatch_bind_Returned _ _ _ _ _ _ Hemit).
    rewrite (tryCatch_bind_Returned _ _ _ _ _ _ Hadd).
    reflexivity.
Qed.

(** [sendToLLM] when the model asks for tools. *)
Lemma sendToLLM_toolCalls self toolCalls bus messages supply calls s :
  stands bus messages supply calls s →
  (∀ w, ∃ w1,
     invokeModel (llm config) messages w
     = (Ok (AssistantToolRequest toolCalls), w1)) →
  ∃ s1,
    stands bus messages supply (calls ++ [InvokeModel messages]) s1
    ∧ sendToLLM config self s
      = tryCatch
          (validateAndProcessTools config self (default [] toolCalls);;
           self)
          (λ error, emit "error" (LLMError error);; ret ()) s1.
Proof.
  intros Hs Hmodel.
  assert (Hlog : log s = messages) by apply Hs.
  destruct (Hmodel (world s)) as [w1 Hw].
  destruct (step_call_ok (InvokeModel messages)
              (invokeModel (llm config) messages) _ _ _ _ _ _ s Hs Hw)
    as (s1 & Hcall & Hs1).
  exists s1. split; [done|].
  unfold sendToLLM, tryCatch.
  erewrite bind_Returned by reflexivity. fold (log s). rewrite Hlog.
  erewrite bind_Returned by exact Hcall. reflexivity.
Qed.

(** The head of the batch up to the validation of its input. *)
Lemma validateAndProcessTools_request self toolCall rest tool bus messages
    supply calls s :
  stands bus messages supply calls s →
  find_tool (tools config) (tu_name toolCall) = Ok (Some tool) →
  ∃ s1,
    stands bus
      (messages
       ++ [ToolRequestMessage supply
             (mkToolUse (tu_toolUseId toolCall) (tu_name toolCall)
                (tu_input toolCall))
             (tu_name toolCall) (tu_toolUseId toolCall)])
      (S supply) calls s1
    ∧ ∀ B (k : M (World:=World) B),
        bind (validateAndProcessTools config self (toolCall :: rest)) (λ _, k)
          s
        = bind
            (v ← ofTool (validate tool (tu_input toolCall));
             if negb (ok v) then
               v2 ← ofTool (validate tool (tu_input toolCall));
               emitToolError (tu_toolUseId toolCall)
                 (Some (tu_name toolCall)) (error v2);;
               onConversation
                 (CM.addToolResultMessage (tu_toolUseId toolCall)
                    (ContentObject (error v2) "") (error v2));;
               ret ()
             else
               gate ← (if negb (acceptAll config)
                       then needsConfirmation toolCall tool
                       else ret false);
               if gate then requestConfirmation toolCall
               else
                 executeValidatedTool config self (tu_toolUseId toolCall);;
                 validateAndProcessTools config self rest)
            (λ _, k) s1.
Proof.
  intros Hs Hfind.
  destruct (step_add (Append.ToolRequest (tu_name toolCall)
                        (tu_toolUseId toolCall) (tu_input toolCall))
              _ _ _ _ s Hs) as (s1 & Hadd & Hs1).
  exists s1. split; [done|]. intros B k.
  cbn [validateAndProcessTools]. rewrite Hfind.
  unfold bind at 1 2. cbn [ofTool].
  unfold bind at 1 2. change (onConversation _ s) with
    (onConversation
       (Append.call (Append.ToolRequest (tu_name toolCall)
                       (tu_toolUseId toolCall) (tu_input toolCall))) s).
  rewrite Hadd. reflexivity.
Qed.

Lemma bind_ofTool_Ok {A B} (a : A) (f : A → M (World:=World) B) :
  bind (ofTool (Ok a)) f = f a.
Proof. reflexivity. Qed.

Lemma bind_ret {A B} (a : A) (f : A → M (World:=World) B) :
  bind (ret a) f = f a.
Proof. reflexivity. Qed.

(** The head of the batch when every tool is accepted and the input is
    valid. *)
Lemma validateAndProcessTools_accepted self toolCall rest tool v bus messages
    supply calls s :
  stands bus messages supply calls s →
  acceptAll config = true →
  find_tool (tools config) (tu_name toolCall) = Ok (Some tool) →
  validate tool (tu_input toolCall) = Ok v →
  ok v = true →
  ∃ s1,
    stands bus
      (messages
       ++ [ToolRequestMessage supply
             (mkToolUse (tu_toolUseId toolCall) (tu_name toolCall)
                (tu_input toolCall))
             (tu_name toolCall) (tu_toolUseId toolCall)])
      (S supply) calls s1
    ∧ ∀ B (k : M (World:=World) B),
        bind (validateAndProcessTools config self (toolCall :: rest)) (λ _, k)
          s
        = bind
            (executeValidatedTool config self (tu_toolUseId toolCall);;
             validateAndProcessTools config self rest)
            (λ _, k) s1.
Proof.
  intros Hs Hall Hfind Hvalid Hok.
  destruct (validateAndProcessTools_request self toolCall rest tool
              _ _ _ _ s Hs Hfind) as (s1 & Hs1 & Hbatch).
  exists s1. split; [done|]. intros B k.
  rewrite Hbatch, Hvalid, bind_ofTool_Ok. cbv beta.
  rewrite Hok, Hall. cbn [negb]. by rewrite bind_ret.
Qed.


(** X23. A tool round trip when every tool is accepted. With
    [acceptAll] set, when the model answers the new user message by one
    call of a known tool whose [validate] accepts the input, the service
    resolves the call to at least one result, the model answers the log
    with these results by plain content, and no listener throws, then
    [run] returns that content. The log has grown by the user message, the
    tool request, the tool results and the assistant message, in this
    order; the model was called twice and the tool run once, with no
    [toolConfirmation] event. *)
Theorem run_tool_round_trip fuel input toolCall tool v result res content s :
  EventBus.quiet (eventBus s) →
  CM.wf (conversation s) →
  acceptAll config = true →
  find_tool (tools config) (tu_name toolCall) = Ok (Some tool) →
  validate tool (tu_input toolCall) = Ok v →
  ok v = true →
  let supply := CM.uuidSupply (conversation s) in
  let toolUse :=
    mkToolUse (tu_toolUseId toolCall) (tu_name toolCall)
      (tu_input toolCall) in
  let asked := log s ++ [UserMessage supply input] in
  let answered :=
    (asked
     ++ [ToolRequestMessage (S supply) toolUse (tu_name toolCall)
           (tu_toolUseId toolCall)])
    ++ resultMessages (S (S supply)) (result ++ [res]) in
  Forall (λ m, requests (tu_toolUseId toolCall) m = false) asked →
  (∀ w, ∃ w1,
     invokeModel (llm config) asked w
     = (Ok (AssistantToolRequest (Some [toolCall])), w1)) →
  (∀ w, ∃ w1,
     processToolCalls (llm config) [toolUse] w
     = (Ok (result ++ [res]), w1)) →
  (∀ w, ∃ w1,
     invokeModel (llm config) answered w
     = (Ok (AssistantContent content), w1)) →
  ∃ s1,
    run config (S (S (S fuel))) input s = Returned content s1
    ∧ stands (eventBus s)
        (answered
         ++ [AssistantMessage (S (S supply) + length (result ++ [res]))
               content])
        (S (S (S supply) + length (result ++ [res])))
        (trace s
         ++ [Emit "userSent" (UserSent input);
             InvokeModel asked;
             Emit "toolStart"
               (ToolStart (tu_toolUseId toolCall) (tu_name toolCall)
                  (tu_input toolCall));
             ProcessToolCalls [toolUse];
             Emit "toolEnd"
               (ToolEnd (tu_toolUseId toolCall) (tu_name toolCall)
                  (result ++ [res]) 0);
             InvokeModel answered;
             Emit "assistantReceive" (AssistantReceive content)]) s1.
Proof.
  intros Hq Hwf Hall Hfind Hvalid Hok supply toolUse asked answered
    Hfirst Hmodel1 Hrun Hmodel2.
  destruct (step_add (Append.User input) _ _ _ _ s (stands_here s Hwf))
    as (s1 & Hadd & Hs1).
  destruct (step_emit "userSent" (UserSent input) _ _ _ _ s1 Hq Hs1)
    as (vs & s2 & Hemit & Hs2).
  destruct (sendToLLM_toolCalls (processConversation config (S (S fuel)))
              _ _ _ _ _ s2 Hs2 Hmodel1) as (s3 & Hs3 & Hsend1).
  destruct (validateAndProcessTools_accepted
              (processConversation config (S (S fuel))) toolCall [] tool v
              _ _ _ _ s3 Hs3 Hall Hfind Hvalid Hok)
    as (s4 & Hs4 & Hbatch).
  destruct (executeValidatedTool_runs
              (processConversation config (S (S fuel)))
              (tu_toolUseId toolCall) _ toolUse _ asked [] (result ++ [res])
              _ _ _ s4 Hq Hs4 Hfirst Hrun) as (s5 & h & Hs5 & Hexec).
  fold answered in Hs5.
  assert (Hlast : ∃ front m,
             answered = front ++ [m] ∧ msg_type m = TOOL_RESULT).
  { unfold answered. rewrite resultMessages_snoc, app_assoc. eauto. }
  destruct Hlast as (front & m & Hanswered & Hm).
  destruct (sendToLLM_content config (processConversation config (S fuel))
              content _ _ _ _ s5 Hq Hs5 Hmodel2) as (s6 & Hs6 & Hsend2).
  assert (Hwait : ∀ n, processConversation config (S n) s6 = Returned () s6).
  { intros n. by rewrite (processConversation_last _ _ _ _ _ _ _ _ Hs6). }
  assert (Hturn : processConversation config (S (S fuel)) s5
                  = Returned () s6).
  { assert (Hs5' : stands (eventBus s) (front ++ [m])
                      (S (S supply) + length (result ++ [res]))
                      (trace s
                       ++ [Emit "userSent" (UserSent input);
                           InvokeModel asked;
                           Emit "toolStart"
                             (ToolStart (tu_toolUseId toolCall)
                                (tu_name toolCall) (tu_input toolCall));
                           ProcessToolCalls [toolUse];
                           Emit "toolEnd"
                             (ToolEnd (tu_toolUseId toolCall)
                                (tu_name toolCall) (result ++ [res]) 0)])
                      s5).
    { rewrite <- Hanswered. destruct Hs5 as (H1 & H2 & H3 & H4 & H5).
      split_and!; [done|done|exact H3|done|].
      rewrite H5. by rewrite <- !app_assoc. }
    rewrite (processConversation_last _ _ _ _ _ _ _ _ Hs5')
      by (by rewrite Hm).
    rewrite Hm. cbn [CM.getNextActionForType]. rewrite Hsend2.
    apply tryCatch_Returned, Hwait. }
  exists s6. split.
  - unfold run. returns ltac:(exact Hadd). returns ltac:(exact Hemit).
    returns ltac:(
      rewrite (processConversation_last _ _ _ _ _ _ _ _ Hs2) by done;
      cbn [msg_type Append.message CM.getNextActionForType];
      rewrite Hsend1; cbn [default]; apply tryCatch_Returned;
      change (validateAndProcessTools config
                (processConversation config (S (S fuel))) [toolCall];;
              processConversation config (S (S fuel)))
        with (bind (validateAndProcessTools config
                      (processConversation config (S (S fuel))) [toolCall])
                (λ _, processConversation config (S (S fuel))));
      rewrite Hbatch;
      returns ltac:(
        returns ltac:(rewrite Hexec; apply tryCatch_Returned, Hturn);
        reflexivity);
      apply Hwait).
    returns ltac:(reflexivity). unfold ret. f_equal.
    assert (Hlog : log s6
                   = answered
                     ++ [AssistantMessage
                           (S (S supply) + length (result ++ [res]))
                           content]) by apply Hs6.
    unfold CM.getMessagesByType. fold (log s6). rewrite Hlog.
    rewrite List.filter_app. simpl. by rewrite last_snoc.
  - destruct Hs6 as (H1 & H2 & H3 & H4 & H5).
    split_and!; [done|done|exact H3|done|].
    rewrite H5. repeat rewrite <- (app_assoc (trace s)). reflexivity.
Qed.

End RoundTrip.

(** *** The theorems at concrete agents *)









(** C1, at a failing input. The model asks for [fs_write], which is gated.
    Within the same [run], right after the [toolConfirmation] event and with
    no call of [handleToolConfirmation], the agent starts the tool, has it
    run, appends its result, invokes the model again and appends the answer:
    [sendToLLM] goes on to [processConversation] when the loop over the tool
    calls returns, and the tool request at the end of the log makes the next
    action [EXECUTE_LOCAL_TOOL]. *)
Theorem gated_call_runs_without_decision :
  ∃ s1,
    run Examples.writerConfig 4 "write the file" Examples.writerAgent
    = Returned "done" s1
    ∧ trace s1
      = [Emit "userSent" (UserSent "write the file");
         InvokeModel
           [SystemMessage 0 "You are helpful";
            UserMessage 1 "write the file"];
         Emit "toolConfirmation"
           (ToolConfirmation "call-1" "fs_write" "{}" true);
         Emit "toolStart" (ToolStart "call-1" "fs_write" "{}");
         ProcessToolCalls [Examples.firstCall "fs_write"];
         Emit "toolEnd"
           (ToolEnd "call-1" "fs_write"
              [mkToolCallResult "call-1" (ContentString "ok")] 0);
         InvokeModel (take 4 (log s1));
         Emit "assistantReceive" (AssistantReceive "done")]
    ∧ log s1
      = [SystemMessage 0 "You are helpful";
         UserMessage 1 "write the file";
         ToolRequestMessage 2 (Examples.firstCall "fs_write") "fs_write"
           "call-1";
         ToolResultMessage 3 "call-1"
           {| tr_toolUseId := "call-1"; tr_json := JsonResult "ok";
              tr_status := StatusSuccess |} None;
         AssistantMessage 4 "done"].
Proof. eexists. split_and!; vm_compute; reflexivity. Qed.

(** C2, at a failing input. After the run above the caller answers the
    confirmation request it was sent, with a refusal. The call has its result
    already, and the refusal appends a second tool result for the same
    [toolUseId]. Refusing a [toolUseId] that was never requested appends a
    tool result that has no tool request at all. Both logs are reached by
    calls of [run] and [handleToolConfirmation] only. *)
Theorem declined_call_answered_twice :
  ∃ s1 s2 s3,
    run Examples.writerConfig 4 "write the file" Examples.writerAgent
    = Returned "done" s1
    ∧ handleToolConfirmation Examples.writerConfig 2 "call-1" false s1
      = Returned () s2
    ∧ List.filter (λ m, bool_decide (msg_type m = TOOL_RESULT)) (log s2)
      = [ToolResultMessage 3 "call-1"
           {| tr_toolUseId := "call-1"; tr_json := JsonResult "ok";
              tr_status := StatusSuccess |} None;
         ToolResultMessage 5 "call-1"
           {| tr_toolUseId := "call-1";
              tr_json :=
                JsonObject (Some "Tool use was cancelled by the user.") "";
              tr_status := StatusError |}
           (Some "Tool use was cancelled by the user.")]
    ∧ Spec.toolResultsPaired (log s2) = false
    ∧ reachable Examples.writerConfig s2
    ∧ handleToolConfirmation Examples.downConfig 2 "ghost" false
        Examples.downAgent
      = Returned () s3
    ∧ List.filter (λ m, bool_decide (msg_type m = TOOL_REQUEST)) (log s3)
      = []
    ∧ Spec.toolResultsPaired (log s3) = false
    ∧ reachable Examples.downConfig s3.
Proof.
  do 3 eexists. split_and!; try (vm_compute; reflexivity).
  - eapply (reach_confirmation _ 2 "call-1" false).
    + eapply (reach_run _ 4 "write the file"); [apply (reach_create _ 0 0)|].
      vm_compute; reflexivity.
    + vm_compute; reflexivity.
  - eapply (reach_confirmation _ 2 "ghost" false);
      [apply (reach_create _ 0 0)|].
    vm_compute; reflexivity.
Qed.

(** *** Whole turns at concrete agents *)

Lemma only_the_catalogue_witness :
  ∃ s1,
    final (run MoreExamples.briefedConfig 4 "write it"
             MoreExamples.briefedAgent) = Some s1
    ∧ addedOnly (Catalogue.record MoreExamples.briefedConfig) [] s1.
Proof.
  eexists. split; [vm_compute; reflexivity|].
  apply (only_the_catalogue MoreExamples.briefedConfig
           MoreExamples.briefedAgent).
  left. exists 4, "write it". vm_compute. reflexivity.
Defined.

Lemma accept_all_never_asks_witness :
  ∃ s1,
    final (run MoreExamples.briefedConfig 4 "write it"
             MoreExamples.briefedAgent) = Some s1
    ∧ addedOnly (λ e, ∀ data, e ≠ Emit "toolConfirmation" data) [] s1.
Proof.
  eexists. split; [vm_compute; reflexivity|].
  apply (accept_all_never_asks MoreExamples.briefedConfig
           MoreExamples.briefedAgent); [reflexivity|].
  left. exists 4, "write it". vm_compute. reflexivity.
Defined.

Lemma model_sees_whole_log_witness :
  ∃ s1,
    final (run MoreExamples.briefedConfig 4 "write it"
             MoreExamples.briefedAgent) = Some s1
    ∧ modelSaw
        [SystemMessage 0 "You are helpful"; UserMessage 1 "I am Ada";
         UserMessage 2 "I like short answers"; UserMessage 3 "write it"]
        [] s1.
Proof.
  eexists. split; [vm_compute; reflexivity|].
  apply (model_sees_whole_log MoreExamples.briefedConfig 4 "write it"
           MoreExamples.briefedAgent).
  - apply (bool_decide_unpack _). vm_compute. exact I.
  - vm_compute. reflexivity.
Defined.

Lemma run_records_input_first_witness :
  ∃ s1,
    final (run MoreExamples.briefedConfig 4 "write it"
             MoreExamples.briefedAgent) = Some s1
    ∧ [SystemMessage 0 "You are helpful"; UserMessage 1 "I am Ada";
       UserMessage 2 "I like short answers"; UserMessage 3 "write it"]
        `prefix_of` log s1
    ∧ [Emit "userSent" (UserSent "write it")] `prefix_of` trace s1.
Proof.
  eexists. split; [vm_compute; reflexivity|].
  apply (run_records_input_first MoreExamples.briefedConfig 4 "write it"
           MoreExamples.briefedAgent).
  - apply (bool_decide_unpack _). vm_compute. exact I.
  - vm_compute. reflexivity.
Defined.

Lemma run_plain_answer_witness :
  ∃ s1,
    run MoreExamples.echoConfig 2 "hi" MoreExamples.echoAgent
    = Returned "hello" s1
    ∧ log s1
      = [SystemMessage 0 "You are helpful"; UserMessage 1 "hi";
         AssistantMessage 2 "hello"].
Proof.
  destruct (run_plain_answer MoreExamples.echoConfig 0 "hi" "hello"
              MoreExamples.echoAgent) as (s1 & Hrun & Hs1).
  - apply quiet_constructor.
  - apply (bool_decide_unpack _). vm_compute. exact I.
  - intros w. exists (S w). reflexivity.
  - exists s1. split; [exact Hrun|].
    destruct Hs1 as (_ & _ & Hlog & _). exact Hlog.
Defined.

Lemma tool_run_succeeds_witness :
  ∃ s1,
    executeValidatedTool Examples.writerConfig (ret ()) "call-1"
      MoreExamples.pendingAgent
    = Returned () s1
    ∧ log s1
      = [SystemMessage 7 "You are helpful"; UserMessage 8 "list the files";
         ToolRequestMessage 9 (mkToolUse "call-1" "fs_read" "{}") "fs_read"
           "call-1";
         ToolResultMessage 10 "call-1"
           {| tr_toolUseId := "call-1";
              tr_json := JsonResult "ok";
              tr_status := StatusSuccess |}
           None]
    ∧ trace s1
      = [Emit "toolStart" (ToolStart "call-1" "fs_read" "{}");
         ProcessToolCalls [mkToolUse "call-1" "fs_read" "{}"];
         Emit "toolEnd"
           (ToolEnd "call-1" "fs_read"
              [mkToolCallResult "call-1" (ContentString "ok")] 0)].
Proof.
  destruct (tool_run_succeeds Examples.writerConfig (ret ()) "call-1" 9
              (mkToolUse "call-1" "fs_read" "{}") "fs_read"
              [SystemMessage 7 "You are helpful";
               UserMessage 8 "list the files"]
              [] [mkToolCallResult "call-1" (ContentString "ok")]
              MoreExamples.pendingAgent) as (s1 & Hrun & Hs1).
  - apply quiet_constructor.
  - apply (bool_decide_unpack _). vm_compute. exact I.
  - apply obeys_ret.
  - reflexivity.
  - repeat constructor.
  - intros w. exists w. reflexivity.
  - exists s1. split; [exact Hrun|].
    destruct Hs1 as (_ & _ & Hlog & _ & Htrace). split; [exact Hlog|].
    exact Htrace.
Defined.


Lemma executeNextTool_earliest_witness :
  executeNextTool Examples.writerConfig (ret ()) MoreExamples.pendingAgent
  = executeValidatedTool Examples.writerConfig (ret ()) "call-1"
      MoreExamples.pendingAgent.
Proof.
  refine (executeNextTool_earliest Examples.writerConfig (ret ())
            MoreExamples.pendingAgent
            [SystemMessage 7 "You are helpful";
             UserMessage 8 "list the files"]
            [ToolRequestMessage 9 (mkToolUse "call-1" "fs_read" "{}")
               "fs_read" "call-1"]
            _ _ "call-1" _ _ _).
  - reflexivity.
  - repeat (constructor; [intros H; discriminate H|]). constructor.
  - reflexivity.
  - reflexivity.
  - repeat (constructor; [intros H; discriminate H|]). constructor.
Defined.


Lemma run_tool_round_trip_witness :
  ∃ s1,
    run MoreExamples.scriptedConfig 3 "list the files"
      MoreExamples.scriptedAgent
    = Returned "done" s1
    ∧ log s1
      = [SystemMessage 0 "You are helpful"; UserMessage 1 "list the files";
         ToolRequestMessage 2 (mkToolUse "call-1" "fs_read" "{}") "fs_read"
           "call-1";
         ToolResultMessage 3 "call-1"
           {| tr_toolUseId := "call-1";
              tr_json := JsonResult "ok";
              tr_status := StatusSuccess |}
           None;
         AssistantMessage 4 "done"].
Proof.
  destruct (run_tool_round_trip MoreExamples.scriptedConfig 0
              "list the files" (mkToolUse "call-1" "fs_read" "{}")
              (Examples.plainTool "fs_read" false)
              {| ok := true; error := None |} []
              (mkToolCallResult "call-1" (ContentString "ok")) "done"
              MoreExamples.scriptedAgent) as (s1 & Hrun & Hs1).
  - apply quiet_constructor.
  - apply (bool_decide_unpack _). vm_compute. exact I.
  - reflexivity.
  - reflexivity.
  - reflexivity.
  - reflexivity.
  - repeat constructor.
  - intros w. exists (S w). reflexivity.
  - intros w. exists w. reflexivity.
  - intros w. exists (S w). reflexivity.
  - exists s1. split; [exact Hrun|].
    destruct Hs1 as (_ & _ & Hlog & _). exact Hlog.
Defined.

End AgentFacts.
